(** * Edit-history dialog and plain-text composer listeners

    A shallow embedding of two units of the SDK:

    - [MessageEditHistoryDialog] (the dialog that paginates the edit history
      of a message): its React state, [loadMoreEdits],
      [locallyRedactEventsIfNeeded], [componentDidMount] and the branch
      structure of [render];
    - [usePlainTextListeners] (the listeners of the plain-text composer):
      [amendInnerHtml], [send], [setText], [onInput]/[onPaste] and
      [onKeyDown].

    JavaScript values are modelled as the code uses them: [string | null]
    and optional fields as [option string], truthiness tests written out,
    calls into collaborators (the client, the logger, callbacks received as
    props, DOM event methods) recorded in a trace. *)

From Stdlib Require Import Bool Arith Lia ZArith.
From stdpp Require Import base option list strings.

Local Open Scope string_scope.
Local Open Scope list_scope.

(** ** JavaScript helpers *)

Module JS.

(** [!!s] for [s : string | null | undefined]: [null], [undefined] and the
    empty string are falsy, every other string is truthy. *)
Definition truthy (o : option string) : bool :=
  match o with
  | Some s => negb (String.eqb s EmptyString)
  | None => false
  end.

(** [!!b] for an optional boolean argument ([backwards?: boolean]). *)
Definition truthy_bool (o : option bool) : bool :=
  match o with
  | Some b => b
  | None => false
  end.

(** [a ?? b]: [a] unless it is [null] or [undefined]. *)
Definition nullish {A} (a b : option A) : option A :=
  match a with
  | Some _ => a
  | None => b
  end.

(** The line feed character, and the one-character string that holds it
    (the replacement text of [amendInnerHtml]). *)
Definition line_feed : Ascii.ascii := Ascii.ascii_of_nat 10.

Definition newline : string := String line_feed EmptyString.

(** [drop n s]: [s.slice(n)]. *)
Fixpoint drop (n : nat) (s : string) : string :=
  match n, s with
  | O, _ => s
  | S _, EmptyString => EmptyString
  | S k, String _ s' => drop k s'
  end.

(** [s.replace(/pat/g, rep)] for a literal, non-empty pattern [pat] and a
    replacement [rep] without [$]: the matches are found left to right and
    never overlap; the search resumes after the end of each match.  The
    counter [skip] is the number of characters of the current match that
    are still to be consumed.  Strings are sequences of bytes; the three
    patterns used by the composer are ASCII, so matching bytes and matching
    UTF-16 code units select the same occurrences. *)
Fixpoint replace_from (pat rep : string) (skip : nat) (s : string) : string :=
  match s with
  | EmptyString => EmptyString
  | String c s' =>
      match skip with
      | S k => replace_from pat rep k s'
      | O =>
          if String.prefix pat s
          then rep +:+ replace_from pat rep (String.length pat - 1) s'
          else String c (replace_from pat rep 0 s')
      end
  end.

Definition replace_all (pat rep s : string) : string :=
  replace_from pat rep 0 s.

(** [s.startsWith(pat, i)]: an occurrence of [pat] at position [i]. *)
Definition occurs_at (pat : string) (i : nat) (s : string) : bool :=
  String.prefix pat (drop i s).

(** [s.includes(c)] for a character [c]. *)
Fixpoint contains_char (c : Ascii.ascii) (s : string) : bool :=
  match s with
  | EmptyString => false
  | String a s' => Ascii.eqb a c || contains_char c s'
  end.

End JS.

(** ** The edit-history dialog ([MessageEditHistoryDialog]) *)

Module Dialog.

(** *** Data of the client library, as far as the dialog reads it *)

(** A [MatrixEvent], through the getters the dialog calls.  [getId],
    [getRoomId] and [getAssociatedId] may return [undefined]. *)
Record MatrixEvent := {
  getId : option string;
  getRoomId : option string;
  getType : string;
  getAssociatedId : option string;
}.

#[global] Instance MatrixEvent_eq_dec : EqDecision MatrixEvent.
Proof. solve_decision. Defined.

(** The value caught by [catch (error)], through the two tests made on it:
    [error instanceof MatrixError] and the optional field [error.errcode]. *)
Record MatrixError := {
  instanceofMatrixError : bool;
  errcode : option string;
}.

#[global] Instance MatrixError_eq_dec : EqDecision MatrixError.
Proof. solve_decision. Defined.

(** Constants of the client library. *)
Definition RoomRedaction : string := "m.room.redaction".
Definition RoomMessage : string := "m.room.message".
Definition Replace : string := "m.replace".

Record Room := { getPendingEvents : list MatrixEvent }.

Record MatrixClient := { getRoom : option string -> option Room }.

(** What [client.relations] resolves with. *)
Record RelationsResult := {
  r_originalEvent : option MatrixEvent;
  r_events : list MatrixEvent;
  r_nextBatch : option string;
}.

(** How the awaited [client.relations(...)] ends. *)
Inductive Response :=
| Fulfilled (result : RelationsResult)
| Threw (error : MatrixError).

(** *** The component *)

Record IProps := { mxEvent : MatrixEvent }.

Record IState := {
  originalEvent : option MatrixEvent;
  error : option MatrixError;
  events : list MatrixEvent;
  nextBatch : option string;
  isLoading : bool;
  isTwelveHour : bool;
}.

(** Calls that leave the component, in the order they are made. *)
Inductive Effect :=
| Relations (roomId eventId : option string) (relationType eventType : string)
            (from : option string)
| LoggerError (error : MatrixError)
| MarkLocallyRedacted (e pendingRedaction : MatrixEvent)
| SetState (next : IState).

(** How the promise returned by [loadMoreEdits] settles. *)
Inductive Settled :=
| Resolved (hasMoreResults : bool)
| Rejected (error : MatrixError).

(** [loadMoreEdits] up to its [await]: it has either returned [false]
    already, or it has called [client.relations] and waits. *)
Inductive Started :=
| ReturnedFalse
| Awaiting (request : Effect).

(** [constructor]; the argument is the value of the setting
    [showTwelveHourTimestamps]. *)
Definition constructor (showTwelveHourTimestamps : bool) : IState :=
  {| originalEvent := None;
     error := None;
     events := [];
     nextBatch := None;
     isLoading := true;
     isTwelveHour := showTwelveHourTimestamps |}.

Section Component.

Variable props : IProps.

(** The guard of [loadMoreEdits]. *)
Definition bailsOut (backwards : option bool) (st : IState) : bool :=
  JS.truthy_bool backwards
  || (negb (JS.truthy (nextBatch st)) && negb (isLoading st)).

(** [loadMoreEdits], first half: the guard, then the request. *)
Definition loadMoreEdits_start (backwards : option bool) (st : IState) : Started :=
  if bailsOut backwards st then ReturnedFalse
  else
    let from := nextBatch st in
    let roomId := getRoomId (mxEvent props) in
    let eventId := getId (mxEvent props) in
    Awaiting (Relations roomId eventId Replace RoomMessage from).

(** The request a call makes from state [st]: the cursor is the [from]
    option ([null] becomes [undefined]). *)
Definition requestFrom (st : IState) : Effect :=
  Relations (getRoomId (mxEvent props)) (getId (mxEvent props))
            Replace RoomMessage (nextBatch st).

(** The predicate given to [pendingEvents.find]. *)
Definition redacts (e pe : MatrixEvent) : bool :=
  String.eqb (getType pe) RoomRedaction
  && bool_decide (getAssociatedId pe = getId e).

(** [locallyRedactEventsIfNeeded]: the calls of [markLocallyRedacted] it
    makes, in order. *)
Definition locallyRedactEventsIfNeeded
    (client : MatrixClient) (newEvents : list MatrixEvent) : list Effect :=
  let roomId := getRoomId (mxEvent props) in
  match getRoom client roomId with
  | None => []
  | Some room =>
      let pendingEvents := getPendingEvents room in
      flat_map
        (fun e =>
           match List.find (redacts e) pendingEvents with
           | Some pendingRedaction => [MarkLocallyRedacted e pendingRedaction]
           | None => []
           end)
        newEvents
  end.

(** [loadMoreEdits], second half: what runs when the awaited request
    ends.  [setState] and its callback are taken as one atomic update:
    the callback reads the state that the update has just installed. *)
Definition loadMoreEdits_resume
    (client : MatrixClient) (response : Response) (st : IState)
  : IState * list Effect * Settled :=
  match response with
  | Threw err =>
      let logged :=
        if instanceofMatrixError err && JS.truthy (errcode err)
        then [LoggerError err] else [] in
      let st' :=
        {| originalEvent := originalEvent st;
           error := Some err;
           events := events st;
           nextBatch := nextBatch st;
           isLoading := isLoading st;
           isTwelveHour := isTwelveHour st |} in
      (st', logged ++ [SetState st'], Rejected err)
  | Fulfilled result =>
      let newEvents := r_events result in
      let marked := locallyRedactEventsIfNeeded client newEvents in
      let st' :=
        {| originalEvent :=
             JS.nullish (originalEvent st) (JS.nullish (r_originalEvent result) None);
           error := error st;
           events := events st ++ newEvents;
           nextBatch := JS.nullish (r_nextBatch result) None;
           isLoading := false;
           isTwelveHour := isTwelveHour st |} in
      let hasMoreResults := JS.truthy (nextBatch st') in
      (st', marked ++ [SetState st'], Resolved hasMoreResults)
  end.

(** *** [render]: which content the dialog shows *)

(** The three error paragraphs, the spinner, and the scroll panel (the
    only content that is given [loadMoreEdits], as [onFillRequest]). *)
Inductive Content :=
| FeatureUnsupported
| SomethingWentWrong
| CannotReachHomeserver
| SpinnerContent
| ScrollPanelContent.

Definition render (st : IState) : Content :=
  match error st with
  | Some err =>
      if bool_decide (errcode err = Some "M_UNRECOGNIZED") then FeatureUnsupported
      else if JS.truthy (errcode err) then SomethingWentWrong
      else CannotReachHomeserver
  | None =>
      if isLoading st then SpinnerContent else ScrollPanelContent
  end.

(** *** The mounted dialog and the events that drive it

    Between the call of [client.relations] and its completion the component
    is idle and other calls of [loadMoreEdits] can run.  A mounted dialog is
    therefore its React state, the requests that have not completed yet, and
    the trace of the calls made so far. *)

Record Mounted := {
  state : IState;
  pending : list Effect;
  trace : list Effect;
}.

Inductive Action :=
| componentDidMount
| onFillRequest (backwards : option bool)
| Completes (i : nat) (client : MatrixClient) (response : Response).

(** A fresh instance, before [componentDidMount]. *)
Definition created (showTwelveHourTimestamps : bool) : Mounted :=
  {| state := constructor showTwelveHourTimestamps; pending := []; trace := [] |}.

(** One call [loadMoreEdits(backwards)], up to its [await].  The second
    component is the settlement of the returned promise when it is known
    at once. *)
Definition loadMoreEdits (backwards : option bool) (d : Mounted)
  : Mounted * option Settled :=
  match loadMoreEdits_start backwards (state d) with
  | ReturnedFalse => (d, Some (Resolved false))
  | Awaiting request =>
      ({| state := state d;
          pending := pending d ++ [request];
          trace := trace d ++ [request] |}, None)
  end.

(** The [i]-th pending request completes and its caller resumes. *)
Definition completes (i : nat) (client : MatrixClient) (response : Response)
    (d : Mounted) : option (Mounted * option Settled) :=
  match pending d !! i with
  | None => None
  | Some _ =>
      let '(st', effects, settled) :=
        loadMoreEdits_resume client response (state d) in
      Some ({| state := st';
               pending := delete i (pending d);
               trace := trace d ++ effects |}, Some settled)
  end.

Definition step (a : Action) (d : Mounted) : option (Mounted * option Settled) :=
  match a with
  | componentDidMount => Some (loadMoreEdits None d)
  | onFillRequest backwards => Some (loadMoreEdits backwards d)
  | Completes i client response => completes i client response d
  end.

(** A sequence of actions; the result collects what each one reported. *)
Fixpoint run (actions : list Action) (d : Mounted)
  : option (Mounted * list (option Settled)) :=
  match actions with
  | [] => Some (d, [])
  | a :: rest =>
      match step a d with
      | None => None
      | Some (d', o) =>
          match run rest d' with
          | None => None
          | Some (d'', os) => Some (d'', o :: os)
          end
      end
  end.

(** The requests made so far. *)
Definition isRelations (e : Effect) : bool :=
  match e with
  | Relations _ _ _ _ _ => true
  | _ => false
  end.

Definition fetches (d : Mounted) : list Effect :=
  List.filter isRelations (trace d).

(** The callers of [loadMoreEdits] are [componentDidMount], once after
    construction, and the scroll panel, which exists only while [render]
    produces it. *)
Definition rendersScrollPanel (st : IState) : bool :=
  match render st with
  | ScrollPanelContent => true
  | _ => false
  end.

Definition offered (a : Action) (d : Mounted) : bool :=
  match a with
  | componentDidMount => false
  | onFillRequest _ => rendersScrollPanel (state d)
  | Completes _ _ _ => true
  end.

Inductive reachable (showTwelveHourTimestamps : bool) : Mounted -> Prop :=
| reachable_mounted :
    reachable showTwelveHourTimestamps
      (fst (loadMoreEdits None (created showTwelveHourTimestamps)))
| reachable_step a d d' o :
    reachable showTwelveHourTimestamps d ->
    offered a d = true ->
    step a d = Some (d', o) ->
    reachable showTwelveHourTimestamps d'.

End Component.

End Dialog.


(** ** The plain-text composer listeners ([usePlainTextListeners]) *)

Module Composer.

(** The target of an input or paste event: the test [isDivElement] and, for
    a [div], the [innerHTML] read from it. *)
Inductive EventTarget :=
| HTMLDivElement (innerHTML : string)
| OtherTarget.

Definition isDivElement (target : EventTarget) : bool :=
  match target with
  | HTMLDivElement _ => true
  | OtherTarget => false
  end.

Record KeyboardEvent := {
  key : string;
  shiftKey : bool;
  metaKey : bool;
  ctrlKey : bool;
}.

(** What the hook owns: the editor node behind [ref] ([None] while
    [ref.current] is [null], otherwise its [innerHTML]) and the [content]
    state of [useState]. *)
Record Hook := {
  ref_current : option string;
  content : option string;
}.

(** Calls that leave the hook: the two callbacks received as arguments and
    the two methods of the keyboard event. *)
Inductive Call :=
| OnChange (text : string)
| OnSend
| PreventDefault
| StopPropagation.

#[global] Instance Call_eq_dec : EqDecision Call.
Proof. solve_decision. Defined.

(** Handlers read and write the hook's state and make calls, in order. *)
Definition Handler (A : Type) : Type := Hook -> A * Hook * list Call.

Definition ret {A} (a : A) : Handler A := fun h => (a, h, []).

Definition bind {A B} (m : Handler A) (k : A -> Handler B) : Handler B :=
  fun h =>
    let '(a, h1, calls1) := m h in
    let '(b, h2, calls2) := k a h1 in
    (b, h2, calls1 ++ calls2).

Notation "x <- m ;; k" := (bind m (fun x => k))
  (at level 100, m at next level, right associativity).
Notation "m ;; k" := (bind m (fun _ => k))
  (at level 100, right associativity).

Definition readRef : Handler (option string) :=
  fun h => (ref_current h, h, []).

Definition writeInnerHTML (html : string) : Handler unit :=
  fun h => (tt, {| ref_current := Some html; content := content h |}, []).

Definition setContent (text : string) : Handler unit :=
  fun h => (tt, {| ref_current := ref_current h; content := Some text |}, []).

Definition call (c : Call) : Handler unit := fun h => (tt, h, [c]).

Definition when (b : bool) (m : Handler unit) : Handler unit :=
  if b then m else ret tt.

(** The hook once an attached editor has been emptied; [content] is kept. *)
Definition cleared (h : Hook) : Hook :=
  {| ref_current := match ref_current h with
                    | Some _ => Some EmptyString
                    | None => None
                    end;
     content := content h |}.

(** Final state and calls of a handler. *)
Definition stateAfter {A} (m : Handler A) (h : Hook) : Hook := snd (fst (m h)).
Definition callsOf {A} (m : Handler A) (h : Hook) : list Call := snd (m h).

(** [useState(initialContent)] and [useRef(null)], with the editor node the
    caller attaches to the ref. *)
Definition usePlainTextListeners_init
    (initialContent : option string) (editor : option string) : Hook :=
  {| ref_current := editor; content := initialContent |}.

Section Listeners.

(** [decodeHtml] writes its argument to the [innerHTML] of a fresh
    [textarea] and reads the [value] back: the browser's decoding of
    character references. *)
Variable textareaValue : string -> string.

(** [Key.ENTER] and [IS_MAC] of the keyboard module, the setting
    [MessageComposerInput.ctrlEnterToSend], and the answer of
    [handleEventWithAutocomplete]. *)
Variable Key_ENTER : string.
Variable IS_MAC : bool.
Variable ctrlEnterToSend : bool.
Variable handleEventWithAutocomplete : KeyboardEvent -> bool.

(** Whether the optional callbacks [onChange] and [onSend] were given. *)
Variable onChange_given : bool.
Variable onSend_given : bool.

Definition decodeHtml (html : string) : string := textareaValue html.

(** The replacements are applied in the order they are chained. *)
Definition amendInnerHtml (text : string) : string :=
  JS.replace_all "</div>" EmptyString
    (JS.replace_all "<div>" JS.newline
       (JS.replace_all "<div><br></div>" JS.newline
          (decodeHtml text))).

Definition send : Handler unit :=
  current <- readRef ;;
  when (bool_decide (is_Some current)) (writeInnerHTML EmptyString) ;;
  when onSend_given (call OnSend).

Definition setText (text : option string) : Handler unit :=
  match text with
  | Some text =>
      setContent text ;;
      when onChange_given (call (OnChange text))
  | None =>
      current <- readRef ;;
      match current with
      | Some currentRefContent =>
          setContent currentRefContent ;;
          when onChange_given (call (OnChange currentRefContent))
      | None => ret tt
      end
  end.

Definition enterShouldSend : bool := negb ctrlEnterToSend.

Definition onInput (target : EventTarget) : Handler unit :=
  match target with
  | HTMLDivElement innerHTML =>
      let newInnerHTML :=
        if enterShouldSend then innerHTML else amendInnerHtml innerHTML in
      setText (Some newInnerHTML)
  | OtherTarget => ret tt
  end.

Definition onKeyDown (event : KeyboardEvent) : Handler unit :=
  let isHandledByAutocomplete := handleEventWithAutocomplete event in
  if isHandledByAutocomplete then ret tt
  else
    when (String.eqb (key event) Key_ENTER)
      (let sendModifierIsPressed :=
         if IS_MAC then metaKey event else ctrlKey event in
       when (enterShouldSend && negb (shiftKey event))
         (call PreventDefault ;; call StopPropagation ;; send) ;;
       when (negb enterShouldSend && sendModifierIsPressed)
         (call PreventDefault ;; call StopPropagation ;; send)).

(** The statements shared by the two sending branches of [onKeyDown]. *)
Definition sendAction : Handler unit :=
  call PreventDefault ;; call StopPropagation ;; send.

(** The listeners the hook returns. *)
Record Listeners := {
  listener_onInput : EventTarget -> Handler unit;
  listener_onPaste : EventTarget -> Handler unit;
  listener_onKeyDown : KeyboardEvent -> Handler unit;
  listener_setContent : option string -> Handler unit;
}.

Definition usePlainTextListeners : Listeners :=
  {| listener_onInput := onInput;
     listener_onPaste := onInput;
     listener_onKeyDown := onKeyDown;
     listener_setContent := setText |}.

End Listeners.

End Composer.


(** ** Sample data *)

Module Samples.

Import Dialog.

Definition baseEvent : MatrixEvent :=
  {| getId := Some "$base"; getRoomId := Some "!room";
     getType := "m.room.message"; getAssociatedId := None |}.

Definition edit1 : MatrixEvent :=
  {| getId := Some "$edit1"; getRoomId := Some "!room";
     getType := "m.room.message"; getAssociatedId := Some "$base" |}.

Definition edit2 : MatrixEvent :=
  {| getId := Some "$edit2"; getRoomId := Some "!room";
     getType := "m.room.message"; getAssociatedId := Some "$base" |}.

(** A redaction of [edit1] that has not been sent yet. *)
Definition redaction1 : MatrixEvent :=
  {| getId := Some "~local1"; getRoomId := Some "!room";
     getType := "m.room.redaction"; getAssociatedId := Some "$edit1" |}.

Definition room : Room := {| getPendingEvents := [redaction1] |}.

Definition client : MatrixClient :=
  {| getRoom := fun roomId =>
       if bool_decide (roomId = Some "!room") then Some room else None |}.

Definition props : IProps := {| mxEvent := baseEvent |}.

Definition firstPage : RelationsResult :=
  {| r_originalEvent := None; r_events := [edit2]; r_nextBatch := Some "t1" |}.

Definition lastPage : RelationsResult :=
  {| r_originalEvent := Some baseEvent; r_events := [edit1]; r_nextBatch := None |}.

(** A page whose [nextBatch] is the empty string. *)
Definition emptyCursorPage : RelationsResult :=
  {| r_originalEvent := None; r_events := [edit2]; r_nextBatch := Some EmptyString |}.

Definition unrecognized : MatrixError :=
  {| instanceofMatrixError := true; errcode := Some "M_UNRECOGNIZED" |}.

(** An error whose code is the empty string. *)
Definition emptyCode : MatrixError :=
  {| instanceofMatrixError := true; errcode := Some EmptyString |}.

(** The dialog just after [componentDidMount]. *)
Definition mounted : Mounted := fst (loadMoreEdits props None (created false)).

(** The dialog after its only page. *)
Definition exhausted : Mounted :=
  {| state := {| originalEvent := Some baseEvent; error := None;
                 events := [edit1]; nextBatch := None;
                 isLoading := false; isTwelveHour := false |};
     pending := [];
     trace := [requestFrom props (constructor false)] |}.

(** Two pages, the second asked for by the scroll panel. *)
Definition twoPages : list Action :=
  [componentDidMount; Completes 0 client (Fulfilled firstPage);
   onFillRequest (Some false); Completes 0 client (Fulfilled lastPage)].

Definition afterTwoPages : Mounted :=
  match run props twoPages (created false) with
  | Some (d, _) => d
  | None => created false
  end.

Definition twoPagesReports : list (option Settled) :=
  match run props twoPages (created false) with
  | Some (_, reports) => reports
  | None => []
  end.

(** After the first page, the scroll panel asks twice before any answer. *)
Definition askedTwice : list Action :=
  [Completes 0 client (Fulfilled firstPage);
   onFillRequest None; onFillRequest (Some false)].

Definition twoPending : Mounted :=
  match run props askedTwice mounted with
  | Some (d, _) => d
  | None => mounted
  end.

(** The state in which [emptyCode] has been stored. *)
Definition failedEmptyCode : IState :=
  {| originalEvent := None; error := Some emptyCode; events := [];
     nextBatch := None; isLoading := true; isTwelveHour := false |}.

Import Composer.

Definition enter : KeyboardEvent :=
  {| key := "Enter"; shiftKey := false; metaKey := false; ctrlKey := false |}.

Definition ctrlEnter : KeyboardEvent :=
  {| key := "Enter"; shiftKey := false; metaKey := false; ctrlKey := true |}.

Definition tab : KeyboardEvent :=
  {| key := "Tab"; shiftKey := false; metaKey := false; ctrlKey := false |}.

(** An autocomplete that takes the Tab key. *)
Definition handlesTab (event : KeyboardEvent) : bool :=
  String.eqb (key event) "Tab".

Definition typed : Hook :=
  usePlainTextListeners_init (Some "hello") (Some "hello").

End Samples.

(** ** The list of edits ([renderEdits]) *)

Module DialogView.

Import Dialog.

(** The elements [renderEdits] pushes: a list item holding a date
    separator, or an edit-history message, with the props they are given. *)
Inductive Node :=
| DateSeparatorItem (roomId : option string) (ts : Z)
| EditHistoryMessage (key : option string) (previousEdit : option MatrixEvent)
                     (isBaseEvent : bool) (mxEvent : MatrixEvent)
                     (isTwelveHour : bool).

Definition isMessage (n : Node) : bool :=
  match n with
  | EditHistoryMessage _ _ _ _ _ => true
  | DateSeparatorItem _ _ => false
  end.

Definition isSeparator (n : Node) : bool := negb (isMessage n).

(** The event a message was made for. *)
Definition messageEvent (n : Node) : option MatrixEvent :=
  match n with
  | EditHistoryMessage _ _ _ e _ => Some e
  | DateSeparatorItem _ _ => None
  end.

Section RenderEdits.

(** The getters of an event that only the view reads, and the date test of
    the date utilities, which decides where a separator goes. *)
Variable Date : Type.
Variable getDate : MatrixEvent -> option Date.
Variable getTs : MatrixEvent -> Z.
Variable wantsDateSeparator : option Date -> option Date -> bool.

Variable props : IProps.

(** [allEvents]: the accumulated edits, followed by the original event once
    it is known and the last page has been fetched. *)
Definition allEvents (st : IState) : list MatrixEvent :=
  match originalEvent st with
  | Some original =>
      if negb (JS.truthy (nextBatch st)) then events st ++ [original]
      else events st
  | None => events st
  end.

(** The body of [allEvents.forEach((e, i) => ...)]: the accumulator is the
    array [nodes] and the variable [lastEvent]. *)
Definition renderEdits_body (st : IState) (all : list MatrixEvent)
    (acc : list Node * option MatrixEvent) (ie : nat * MatrixEvent)
  : list Node * option MatrixEvent :=
  let '(nodes, lastEvent) := acc in
  let '(i, e) := ie in
  let baseEventId := getId (mxEvent props) in
  let separated :=
    match lastEvent with
    | None => true
    | Some last => wantsDateSeparator (getDate last) (getDate e)
    end in
  let nodes :=
    if separated then nodes ++ [DateSeparatorItem (getRoomId e) (getTs e)]
    else nodes in
  let isBaseEvent := bool_decide (getId e = baseEventId) in
  let nodes :=
    nodes ++ [EditHistoryMessage (getId e)
                (if negb isBaseEvent then all !! (i + 1) else None)
                isBaseEvent e (isTwelveHour st)] in
  (nodes, Some e).

Definition renderEdits (st : IState) : list Node :=
  let all := allEvents st in
  fst (fold_left (renderEdits_body st all) (imap (fun i e => (i, e)) all) ([], None)).

(** The message made for the event [e] at index [i] of [all]. *)
Definition messageFor (st : IState) (all : list MatrixEvent)
    (i : nat) (e : MatrixEvent) : Node :=
  let isBaseEvent := bool_decide (getId e = getId (mxEvent props)) in
  EditHistoryMessage (getId e)
    (if negb isBaseEvent then all !! (i + 1) else None)
    isBaseEvent e (isTwelveHour st).

(** What one iteration pushes: the separator, if any, then the message. *)
Definition pushed (st : IState) (all : list MatrixEvent)
    (lastEvent : option MatrixEvent) (i : nat) (e : MatrixEvent) : list Node :=
  (if match lastEvent with
      | None => true
      | Some last => wantsDateSeparator (getDate last) (getDate e)
      end
   then [DateSeparatorItem (getRoomId e) (getTs e)] else [])
  ++ [messageFor st all i e].

(** The iterations from index [k] on, started with an empty array. *)
Definition renderEdits_from (st : IState) (all : list MatrixEvent)
    (k : nat) (lastEvent : option MatrixEvent) (rest : list MatrixEvent)
  : list Node :=
  fst (fold_left (renderEdits_body st all)
         (imap (fun i e => (k + i, e)) rest) ([], lastEvent)).

End RenderEdits.

End DialogView.

(** ** Runs of the dialog: what the trace holds *)

Module DialogRuns.

Import Dialog.

Definition isSetState (e : Effect) : bool :=
  match e with
  | SetState _ => true
  | _ => false
  end.

Definition isLoggerError (e : Effect) : bool :=
  match e with
  | LoggerError _ => true
  | _ => false
  end.

(** The cursors the answers of a run carry. *)
Fixpoint answeredCursors (actions : list Action) : list (option string) :=
  match actions with
  | [] => []
  | Completes _ _ (Fulfilled result) :: rest =>
      r_nextBatch result :: answeredCursors rest
  | _ :: rest => answeredCursors rest
  end.

(** The errors the failures of a run throw. *)
Fixpoint thrownErrors (actions : list Action) : list MatrixError :=
  match actions with
  | [] => []
  | Completes _ _ (Threw err) :: rest => err :: thrownErrors rest
  | _ :: rest => thrownErrors rest
  end.

Definition isCompletes (a : Action) : bool :=
  match a with
  | Completes _ _ _ => true
  | _ => false
  end.

(** The events of the batches the answers of a run carry, in the order the
    answers arrive. *)
Fixpoint answeredEvents (actions : list Action) : list MatrixEvent :=
  match actions with
  | [] => []
  | Completes _ _ (Fulfilled result) :: rest =>
      r_events result ++ answeredEvents rest
  | _ :: rest => answeredEvents rest
  end.

(** The test made before [logger.error]. *)
Definition isLogged (err : MatrixError) : bool :=
  instanceofMatrixError err && JS.truthy (errcode err).

(** The event a call of [markLocallyRedacted] is made on. *)
Definition markedEvent (e : Effect) : option MatrixEvent :=
  match e with
  | MarkLocallyRedacted ev _ => Some ev
  | _ => None
  end.

Section Offered.

Variable props : IProps.

(** The three ways a step goes: a call that bails out, a call that makes a
    request, an answer or failure of a pending request. *)
Inductive StepKind (d : Mounted) : Action -> Mounted -> option Settled -> Prop :=
| step_bails a backwards :
    (a = onFillRequest backwards \/ a = componentDidMount /\ backwards = None) ->
    bailsOut backwards (state d) = true ->
    StepKind d a d (Some (Resolved false))
| step_requests a backwards :
    (a = onFillRequest backwards \/ a = componentDidMount /\ backwards = None) ->
    bailsOut backwards (state d) = false ->
    StepKind d a
      {| state := state d;
         pending := pending d ++ [requestFrom props (state d)];
         trace := trace d ++ [requestFrom props (state d)] |}
      None
| step_completes i client response :
    is_Some (pending d !! i) ->
    StepKind d (Completes i client response)
      {| state := fst (fst (loadMoreEdits_resume props client response (state d)));
         pending := delete i (pending d);
         trace := trace d
                  ++ snd (fst (loadMoreEdits_resume props client response (state d))) |}
      (Some (snd (loadMoreEdits_resume props client response (state d)))).


(** Whether every action of a run is one the view can make at the state it
    is made in. *)
Fixpoint allOffered (actions : list Action) (d : Mounted) : bool :=
  match actions with
  | [] => true
  | a :: rest =>
      offered a d
      && match step props a d with
         | Some (d', _) => allOffered rest d'
         | None => true
         end
  end.

End Offered.

End DialogRuns.

(** ** The markup of the editor

    Pressing enter in the editor inserts a [div], which holds a [br] until
    something is typed in it; the [div]s delimit the paragraphs (see the
    comment above [amendInnerHtml]). *)

Module EditorMarkup.

(** The character that opens a tag. *)
Definition lt : Ascii.ascii := Ascii.ascii_of_nat 60.

(** The lines after the first one, each put in its form [shape]. *)
Fixpoint linesWith (shape : string -> string) (lines : list string) : string :=
  match lines with
  | [] => EmptyString
  | line :: rest => shape line +:+ linesWith shape rest
  end.

(** A line as the editor holds it. *)
Definition paragraph (line : string) : string :=
  match line with
  | EmptyString => "<div><br></div>"
  | _ => "<div>" +:+ line +:+ "</div>"
  end.

(** A paragraph once the empty ones have become line feeds, and once the
    opening tags have. *)
Definition withoutBreak (line : string) : string :=
  match line with
  | EmptyString => JS.newline
  | _ => "<div>" +:+ line +:+ "</div>"
  end.

Definition withoutOpening (line : string) : string :=
  match line with
  | EmptyString => JS.newline
  | _ => JS.newline +:+ line +:+ "</div>"
  end.

(** A line of the plain text: a line feed, then the line. *)
Definition plainLine (line : string) : string := JS.newline +:+ line.

(** The editor's markup for a text of one first line and further lines, and
    the plain text of the same lines. *)
Definition editorHtml (first : string) (lines : list string) : string :=
  first +:+ linesWith paragraph lines.

Definition plainText (first : string) (lines : list string) : string :=
  first +:+ linesWith plainLine lines.

(** A string without the character that opens a tag. *)
Definition tagFree (s : string) : bool := negb (JS.contains_char lt s).

End EditorMarkup.

(** ** More sample data *)

Module MoreSamples.

Import Dialog DialogView.

(** Where a run ends and what it reports. *)
Definition endOf (actions : list Action) (d : Mounted) : Mounted :=
  match run Samples.props actions d with
  | Some (d', _) => d'
  | None => d
  end.

Definition reportsOf (actions : list Action) (d : Mounted) : list (option Settled) :=
  match run Samples.props actions d with
  | Some (_, reports) => reports
  | None => []
  end.

(** Two requests pending; the first fails, the second is answered later. *)
Definition twoRequests : Mounted :=
  fst (loadMoreEdits Samples.props (Some false) Samples.mounted).

Definition failedOnce : Mounted :=
  endOf [Completes 0 Samples.client (Threw Samples.unrecognized)] twoRequests.

Definition lateAnswer : list Action :=
  [Completes 0 Samples.client (Fulfilled Samples.lastPage)].

(** A failure without code between two pages. *)
Definition unreachable : MatrixError :=
  {| instanceofMatrixError := false; errcode := None |}.

Definition failingRun : list Action :=
  [componentDidMount; onFillRequest None;
   Completes 0 Samples.client (Threw unreachable);
   Completes 0 Samples.client (Threw Samples.unrecognized)].

(** The first page shown, then a further request that fails. *)
Definition firstShown : Mounted :=
  endOf [Completes 0 Samples.client (Fulfilled Samples.firstPage)] Samples.mounted.

Definition failsLater : list Action :=
  [onFillRequest None; Completes 0 Samples.client (Threw unreachable)].

(** A first page that delivers the original event, then a page that
    delivers another one. *)
Definition originalDelivered : Mounted :=
  endOf [Completes 0 Samples.client
           (Fulfilled {| r_originalEvent := Some Samples.baseEvent;
                         r_events := [Samples.edit2];
                         r_nextBatch := Some "t1" |})]
    Samples.mounted.

Definition otherOriginal : list Action :=
  [onFillRequest None;
   Completes 0 Samples.client
     (Fulfilled {| r_originalEvent := Some Samples.edit1;
                   r_events := [];
                   r_nextBatch := None |})].

(** The state shown after both pages of [Samples.twoPages]. *)
Definition shown : IState := state Samples.afterTwoPages.

(** Days and timestamps for the view: the day of an event is the length of
    its id, and a separator is wanted between different days. *)
Definition dayOf (e : MatrixEvent) : option nat :=
  match getId e with
  | Some id => Some (String.length id)
  | None => None
  end.

Definition tsOf (e : MatrixEvent) : Z :=
  match getId e with
  | Some id => Z.of_nat (String.length id)
  | None => 0%Z
  end.

Definition differentDays (a b : option nat) : bool := negb (bool_decide (a = b)).

(** What the editor holds after typing foo, enter, enter, bar. *)
Definition typedHtml : string := "foo<div><br></div><div>bar</div>".

Definition escape : Composer.KeyboardEvent :=
  {| Composer.key := "Escape"; Composer.shiftKey := false;
     Composer.metaKey := false; Composer.ctrlKey := true |}.

End MoreSamples.

(** ** What replacing every occurrence means *)

Module ReplaceSpec.

(** [ReplacedEvery pat rep s out]: [out] is [s] with every [pat] replaced
    by [rep].  Read from the left, either [s] holds no [pat], and [out] is
    [s]; or [s] is some text [before] in which no [pat] starts, then the
    first [pat], then the rest [after]: [out] keeps [before], puts [rep] in
    the place of that [pat], and goes on with [after]. *)
Inductive ReplacedEvery (pat rep : string) : string -> string -> Prop :=
| replaced_none s :
    (forall i, JS.occurs_at pat i s = false) ->
    ReplacedEvery pat rep s s
| replaced_first before after out :
    (forall j, j < String.length before ->
               JS.occurs_at pat j (before +:+ pat +:+ after) = false) ->
    ReplacedEvery pat rep after out ->
    ReplacedEvery pat rep (before +:+ pat +:+ after) (before +:+ rep +:+ out).

End ReplaceSpec.

(** ** The callers of [loadMoreEdits] *)

Module DialogCallers.

Import Dialog.

(** Who made a request: [componentDidMount], which drops the promise it
    gets, or the scroll panel, which is given [loadMoreEdits] as
    [onFillRequest] and receives the promise. *)
Inductive Caller :=
| ByMount
| ByScrollPanel.


(** The dialog together with the caller of each pending request, in the
    order of [pending]. *)
Record Viewed := {
  dialog : Mounted;
  owners : list Caller;
}.


(** What holds of the owners in every state the view reaches: they are the
    callers of the pending requests, there is at most one, and once
    [isLoading] is false the request made on mount has been answered. *)
Definition settled (v : Viewed) : Prop :=
  length (owners v) = length (pending (dialog v))
  /\ length (owners v) <= 1
  /\ (isLoading (state (dialog v)) = false ->
        forall c, In c (owners v) -> c = ByScrollPanel).

Section Component.

Variable props : IProps.




End Component.

End DialogCallers.

(** ** Sample data for the callers *)

Module CallerSamples.

Import Dialog DialogCallers.




End CallerSamples.

(** * Properties *)

(** ** Facts about the JavaScript helpers *)

Module JSFacts.

Lemma truthy_true (o : option string) :
  JS.truthy o = true <-> exists s, o = Some s /\ s <> EmptyString.
Proof.
  destruct o as [s|]; simpl.
  - rewrite negb_true_iff. split.
    + intros H. exists s. split; [reflexivity|].
      intros ->. discriminate.
    + intros (s' & [= <-] & Hne). apply String.eqb_neq. exact Hne.
  - split; [discriminate|]. intros (s & [=] & _).
Qed.

Lemma truthy_false (o : option string) :
  JS.truthy o = false <-> o = None \/ o = Some EmptyString.
Proof.
  destruct o as [s|]; simpl.
  - rewrite negb_false_iff, String.eqb_eq. split.
    + intros ->. now right.
    + intros [[=]|[= ->]]. reflexivity.
  - split; [now left|reflexivity].
Qed.

Lemma nullish_None {A} (a : option A) : JS.nullish a None = a.
Proof. now destruct a. Qed.

(** *** Global replacement of a literal pattern *)

(** [replace_from] with a counter is the replacement of the rest. *)
Lemma replace_from_skip pat rep k s :
  JS.replace_from pat rep k s = JS.replace_all pat rep (JS.drop k s).
Proof.
  revert k. induction s as [|c s IH]; intros [|k]; try reflexivity.
  simpl. apply IH.
Qed.

(** The equations of a global replacement of a literal pattern: at a match
    the replacement is emitted and the search resumes after the match,
    elsewhere one character is copied. *)
Lemma replace_all_match pat rep s :
  pat <> EmptyString ->
  String.prefix pat s = true ->
  JS.replace_all pat rep s
  = (rep +:+ JS.replace_all pat rep (JS.drop (String.length pat) s))%string.
Proof.
  intros Hpat Hpre. destruct s as [|c s].
  - destruct pat; [contradiction|discriminate].
  - unfold JS.replace_all at 1. cbn [JS.replace_from]. rewrite Hpre.
    rewrite replace_from_skip. destruct pat as [|p pat]; [contradiction|].
    simpl. now rewrite Nat.sub_0_r.
Qed.

Lemma replace_all_copy pat rep c s :
  String.prefix pat (String c s) = false ->
  JS.replace_all pat rep (String c s) = String c (JS.replace_all pat rep s).
Proof.
  intros Hpre. unfold JS.replace_all. cbn [JS.replace_from]. now rewrite Hpre.
Qed.

Lemma replace_all_empty pat rep : JS.replace_all pat rep EmptyString = EmptyString.
Proof. reflexivity. Qed.

Lemma length_drop n s : String.length (JS.drop n s) <= String.length s.
Proof.
  revert s. induction n as [|n IH]; intros [|c s]; simpl; try lia.
  specialize (IH s). lia.
Qed.

Lemma prefix_cons a q c s :
  String.prefix (String a q) (String c s) = true <->
  a = c /\ String.prefix q s = true.
Proof.
  simpl. destruct (Ascii.ascii_dec a c) as [->|Hne].
  - tauto.
  - split; [discriminate|]. intros [? _]. contradiction.
Qed.

(** Replacing by a line feed a pattern that holds none: what the output
    starts with, the input starts with. *)
Lemma prefix_replace_newline pat q s :
  JS.contains_char JS.line_feed q = false ->
  String.prefix q (JS.replace_all pat JS.newline s) = true ->
  String.prefix q s = true.
Proof.
  revert s. induction q as [|a q IH]; intros s Hfree Hpre.
  - now destruct s.
  - cbn [JS.contains_char] in Hfree. apply orb_false_iff in Hfree as [Ha Hq].
    destruct s as [|c s]; [discriminate|].
    destruct (String.prefix pat (String c s)) eqn:Hmatch.
    + unfold JS.replace_all in Hpre. cbn [JS.replace_from] in Hpre.
      rewrite Hmatch in Hpre. unfold JS.newline in Hpre.
      cbn [String.append] in Hpre.
      apply prefix_cons in Hpre as [-> _].
      now rewrite Ascii.eqb_refl in Ha.
    + rewrite replace_all_copy in Hpre by exact Hmatch.
      apply prefix_cons in Hpre as [-> Hpre].
      apply prefix_cons. split; [reflexivity|]. now apply IH.
Qed.

Lemma replace_newline_head pat s :
  pat <> EmptyString ->
  JS.contains_char JS.line_feed pat = false ->
  String.prefix pat (JS.replace_all pat JS.newline s) = false.
Proof.
  intros Hpat Hfree.
  destruct (String.prefix pat (JS.replace_all pat JS.newline s)) eqn:Hpre;
    [|reflexivity].
  pose proof (prefix_replace_newline _ _ _ Hfree Hpre) as Hs.
  rewrite (replace_all_match _ _ _ Hpat Hs) in Hpre.
  destruct pat as [|a pat]; [contradiction|].
  cbn [JS.contains_char] in Hfree. apply orb_false_iff in Hfree as [Ha _].
  unfold JS.newline in Hpre. cbn [String.append] in Hpre.
  apply prefix_cons in Hpre as [-> _].
  now rewrite Ascii.eqb_refl in Ha.
Qed.

(** Every suffix of such an output is the output for a suffix of the
    input. *)
Lemma replace_newline_suffix pat s i :
  pat <> EmptyString ->
  exists t, JS.drop i (JS.replace_all pat JS.newline s)
            = JS.replace_all pat JS.newline t.
Proof.
  intros Hpat.
  remember (String.length s) as n eqn:Hn.
  assert (Hle : String.length s <= n) by lia. clear Hn.
  revert s i Hle. induction n as [|n IH]; intros s i Hle.
  - destruct s; [|simpl in Hle; lia]. exists EmptyString. now destruct i.
  - destruct i as [|i]; [now exists s|].
    destruct s as [|c s]; [now exists EmptyString|].
    simpl in Hle.
    destruct (String.prefix pat (String c s)) eqn:Hmatch.
    + rewrite (replace_all_match _ _ _ Hpat Hmatch).
      unfold JS.newline. cbn [String.append JS.drop].
      apply IH. destruct pat as [|a pat]; [contradiction|].
      cbn [String.length JS.drop].
      pose proof (length_drop (String.length pat) s). lia.
    + rewrite replace_all_copy by exact Hmatch. cbn [JS.drop].
      apply IH. lia.
Qed.

(** No occurrence of the pattern is left, at any position. *)
Lemma replace_newline_no_occurrence pat s i :
  pat <> EmptyString ->
  JS.contains_char JS.line_feed pat = false ->
  JS.occurs_at pat i (JS.replace_all pat JS.newline s) = false.
Proof.
  intros Hpat Hfree. unfold JS.occurs_at.
  destruct (replace_newline_suffix pat s i Hpat) as [t ->].
  now apply replace_newline_head.
Qed.

End JSFacts.

(** ** Facts about strings and replacement *)

Module StringFacts.

Import ReplaceSpec.

(** *** Strings *)

Lemma append_cons x (a b : string) : (String x a +:+ b = String x (a +:+ b))%string.
Proof. reflexivity. Qed.

Lemma append_empty_l (b : string) : (EmptyString +:+ b = b)%string.
Proof. reflexivity. Qed.

Lemma append_assoc (a b c : string) : ((a +:+ b) +:+ c = a +:+ (b +:+ c))%string.
Proof.
  induction a as [|x a IH]; [reflexivity|].
  rewrite !append_cons. f_equal. exact IH.
Qed.

Lemma append_empty_r (a : string) : (a +:+ EmptyString = a)%string.
Proof.
  induction a as [|x a IH]; [reflexivity|].
  rewrite append_cons. f_equal. exact IH.
Qed.

Lemma contains_char_app c (a b : string) :
  JS.contains_char c (a +:+ b) = JS.contains_char c a || JS.contains_char c b.
Proof.
  induction a as [|x a IH]; [reflexivity|].
  rewrite append_cons. cbn [JS.contains_char]. rewrite IH. apply orb_assoc.
Qed.

Lemma prefix_app pat s : String.prefix pat (pat +:+ s) = true.
Proof.
  induction pat as [|x pat IH]; [now destruct s|].
  rewrite append_cons. apply JSFacts.prefix_cons. auto.
Qed.

Lemma drop_app pat s : JS.drop (String.length pat) (pat +:+ s) = s.
Proof. induction pat as [|x pat IH]; [reflexivity|exact IH]. Qed.

(** At the pattern, the replacement. *)
Lemma replace_all_at_pattern pat rep s :
  pat <> EmptyString ->
  JS.replace_all pat rep (pat +:+ s) = (rep +:+ JS.replace_all pat rep s)%string.
Proof.
  intros Hpat. rewrite JSFacts.replace_all_match by (auto using prefix_app).
  now rewrite drop_app.
Qed.

(** Text without the first character of the pattern is copied. *)
Lemma replace_all_copies c pat rep text s :
  JS.contains_char c text = false ->
  JS.replace_all (String c pat) rep (text +:+ s)
  = (text +:+ JS.replace_all (String c pat) rep s)%string.
Proof.
  induction text as [|x text IH]; intros Hfree; [reflexivity|].
  cbn [JS.contains_char] in Hfree. apply orb_false_iff in Hfree as [Hx Hfree].
  rewrite append_cons, JSFacts.replace_all_copy.
  - now rewrite IH.
  - destruct (String.prefix _ _) eqn:Hpre; [|reflexivity].
    apply JSFacts.prefix_cons in Hpre as [-> _].
    now rewrite Ascii.eqb_refl in Hx.
Qed.

(** A first character of the pattern that starts no match is copied, and
    so is what follows it up to the next such character. *)
Lemma replace_all_skips c pat rep text s :
  String.prefix (String c pat) (String c (text +:+ s)) = false ->
  JS.contains_char c text = false ->
  JS.replace_all (String c pat) rep (String c (text +:+ s))
  = String c (text +:+ JS.replace_all (String c pat) rep s)%string.
Proof.
  intros Hpre Hfree. rewrite JSFacts.replace_all_copy by exact Hpre.
  now rewrite replace_all_copies.
Qed.

Lemma replace_all_tag_free c pat rep text :
  JS.contains_char c text = false ->
  JS.replace_all (String c pat) rep text = text.
Proof.
  intros Hfree. rewrite <- (append_empty_r text) at 1.
  rewrite replace_all_copies by exact Hfree.
  now rewrite append_empty_r.
Qed.

(** *** The replacement of the code replaces every occurrence *)

Lemma occurs_at_S pat j c s :
  JS.occurs_at pat (S j) (String c s) = JS.occurs_at pat j s.
Proof. reflexivity. Qed.

Lemma occurs_at_empty pat i :
  pat <> EmptyString -> JS.occurs_at pat i EmptyString = false.
Proof.
  intros Hpat. unfold JS.occurs_at.
  destruct i; destruct pat; try contradiction; reflexivity.
Qed.

Lemma prefix_split pat s :
  String.prefix pat s = true ->
  s = (pat +:+ JS.drop (String.length pat) s)%string.
Proof.
  revert s. induction pat as [|x pat IH]; intros s Hpre; [reflexivity|].
  destruct s as [|c s]; [discriminate|].
  apply JSFacts.prefix_cons in Hpre as [-> Hpre].
  rewrite append_cons. cbn [String.length JS.drop]. f_equal. now apply IH.
Qed.

(** One more character in front that starts no occurrence is kept. *)
Lemma replaced_cons pat rep c s out :
  String.prefix pat (String c s) = false ->
  ReplacedEvery pat rep s out ->
  ReplacedEvery pat rep (String c s) (String c out).
Proof.
  intros Hpre Hrep. destruct Hrep as [s Hnone|before after out Hbefore Hrest].
  - apply replaced_none. intros [|i]; [exact Hpre|]. apply Hnone.
  - change (String c (before +:+ pat +:+ after))%string
      with (String c before +:+ pat +:+ after)%string.
    change (String c (before +:+ rep +:+ out))%string
      with (String c before +:+ rep +:+ out)%string.
    apply replaced_first; [|exact Hrest].
    intros [|j] Hj; [exact Hpre|].
    cbn [String.length] in Hj. apply Hbefore. lia.
Qed.

Lemma replace_all_replaces pat rep s :
  pat <> EmptyString ->
  ReplacedEvery pat rep s (JS.replace_all pat rep s).
Proof.
  intros Hpat.
  remember (String.length s) as n eqn:Hn.
  assert (Hle : String.length s <= n) by lia. clear Hn.
  revert s Hle. induction n as [|n IH]; intros s Hle.
  - destruct s; [|cbn in Hle; lia].
    apply replaced_none. intros i. now apply occurs_at_empty.
  - destruct s as [|c s].
    + apply replaced_none. intros i. now apply occurs_at_empty.
    + cbn [String.length] in Hle.
      destruct (String.prefix pat (String c s)) eqn:Hmatch.
      * rewrite (JSFacts.replace_all_match _ _ _ Hpat Hmatch).
        pose proof (prefix_split _ _ Hmatch) as Hsplit.
        rewrite Hsplit at 1.
        change (pat +:+ JS.drop (String.length pat) (String c s))%string
          with (EmptyString +:+ pat +:+ JS.drop (String.length pat) (String c s))%string.
        change (rep +:+ JS.replace_all pat rep (JS.drop (String.length pat) (String c s)))%string
          with (EmptyString +:+ rep
                +:+ JS.replace_all pat rep (JS.drop (String.length pat) (String c s)))%string.
        apply replaced_first; [cbn; intros j Hj; lia|].
        apply IH. destruct pat as [|x pat]; [contradiction|].
        cbn [String.length JS.drop].
        pose proof (JSFacts.length_drop (String.length pat) s). lia.
      * rewrite JSFacts.replace_all_copy by exact Hmatch.
        apply replaced_cons; [exact Hmatch|]. apply IH. lia.
Qed.

Lemma replace_all_none pat rep s :
  (forall i, JS.occurs_at pat i s = false) ->
  JS.replace_all pat rep s = s.
Proof.
  induction s as [|c s IH]; intros Hnone; [reflexivity|].
  rewrite JSFacts.replace_all_copy by exact (Hnone 0).
  f_equal. apply IH. intros i. exact (Hnone (S i)).
Qed.

Lemma replace_all_first pat rep before after :
  pat <> EmptyString ->
  (forall j, j < String.length before ->
             JS.occurs_at pat j (before +:+ pat +:+ after) = false) ->
  JS.replace_all pat rep (before +:+ pat +:+ after)
  = (before +:+ rep +:+ JS.replace_all pat rep after)%string.
Proof.
  intros Hpat. induction before as [|c before IH]; intros Hbefore.
  - rewrite !append_empty_l. now apply replace_all_at_pattern.
  - rewrite !append_cons.
    rewrite JSFacts.replace_all_copy
      by (apply (Hbefore 0); cbn [String.length]; lia).
    f_equal. apply IH. intros j Hj.
    apply (Hbefore (S j)). cbn [String.length]. lia.
Qed.

(** Replacing every occurrence has one result, the one the code computes. *)
Lemma replaced_unique pat rep s out :
  pat <> EmptyString ->
  ReplacedEvery pat rep s out ->
  out = JS.replace_all pat rep s.
Proof.
  intros Hpat Hrep.
  induction Hrep as [s Hnone|before after out Hbefore Hrest IH].
  - symmetry. now apply replace_all_none.
  - rewrite replace_all_first by assumption. now rewrite IH.
Qed.

End StringFacts.

(** ** The edit-history dialog *)

Module DialogSpec.

Import Dialog.

Section Pagination.

Variable props : IProps.

Lemma loadMoreEdits_bail backwards d :
  bailsOut backwards (state d) = true ->
  loadMoreEdits props backwards d = (d, Some (Resolved false)).
Proof using Type.
  intros H. unfold loadMoreEdits, loadMoreEdits_start. now rewrite H.
Qed.

Lemma loadMoreEdits_request backwards d :
  bailsOut backwards (state d) = false ->
  loadMoreEdits props backwards d =
    ({| state := state d;
        pending := pending d ++ [requestFrom props (state d)];
        trace := trace d ++ [requestFrom props (state d)] |}, None).
Proof using Type.
  intros H. unfold loadMoreEdits, loadMoreEdits_start. now rewrite H.
Qed.

Lemma fetches_app d effects :
  List.filter isRelations (trace d ++ effects)
  = fetches d ++ List.filter isRelations effects.
Proof using Type. unfold fetches. apply List.filter_app. Qed.

Lemma locallyRedact_no_fetch client newEvents :
  List.filter isRelations (locallyRedactEventsIfNeeded props client newEvents) = [].
Proof using Type.
  unfold locallyRedactEventsIfNeeded.
  destruct (getRoom client _) as [room|]; [|reflexivity].
  induction newEvents as [|e es IH]; [reflexivity|].
  simpl. rewrite List.filter_app, IH.
  now destruct (List.find _ _).
Qed.

(** Resuming never calls [client.relations]. *)
Lemma resume_no_fetch client response st :
  List.filter isRelations (snd (fst (loadMoreEdits_resume props client response st))) = [].
Proof using Type.
  destruct response as [result|err]; simpl.
  - rewrite List.filter_app, locallyRedact_no_fetch. reflexivity.
  - rewrite List.filter_app. now destruct (_ && _).
Qed.

Lemma completes_Some i client response d :
  is_Some (pending d !! i) ->
  completes props i client response d =
    Some ({| state := fst (fst (loadMoreEdits_resume props client response (state d)));
             pending := delete i (pending d);
             trace := trace d
                      ++ snd (fst (loadMoreEdits_resume props client response (state d))) |},
          Some (snd (loadMoreEdits_resume props client response (state d)))).
Proof using Type.
  intros [req Hreq]. unfold completes. rewrite Hreq.
  now destruct (loadMoreEdits_resume _ _ _ _) as [[st' effects] settled].
Qed.

Lemma run_fill_bails (calls : list (option bool)) d :
  JS.truthy (nextBatch (state d)) = false ->
  isLoading (state d) = false ->
  run props (map onFillRequest calls) d
  = Some (d, map (fun _ => Some (Resolved false)) calls).
Proof using Type.
  intros Hn Hl. induction calls as [|b bs IH]; [reflexivity|].
  simpl. rewrite loadMoreEdits_bail.
  - now rewrite IH.
  - unfold bailsOut. rewrite Hn, Hl. now destruct (JS.truthy_bool b).
Qed.

(** C2. A call with [backwards] true returns [false] and makes no request
    (the dialog, its pending requests and its trace are unchanged); so does
    every call made when the cursor is [null] and [isLoading] is false.  In
    particular, when the answer to the request made on mount has no
    [nextBatch], the run has made exactly one request, and every later call,
    whatever its argument, returns [false] and makes none. *)
Theorem loadMoreEdits_rejects_backwards_and_exhausted
    (backwards : option bool) (d : Mounted)
    (showTwelveHourTimestamps : bool) (client : MatrixClient)
    (result : RelationsResult) (calls : list (option bool)) :
  (backwards = Some true ->
     loadMoreEdits props backwards d = (d, Some (Resolved false)))
  /\ (nextBatch (state d) = None -> isLoading (state d) = false ->
        loadMoreEdits props backwards d = (d, Some (Resolved false)))
  /\ (r_nextBatch result = None ->
        exists d',
          run props
            (componentDidMount :: Completes 0 client (Fulfilled result)
               :: map onFillRequest calls)
            (created showTwelveHourTimestamps)
          = Some (d', None :: Some (Resolved false)
                        :: map (fun _ => Some (Resolved false)) calls)
          /\ length (fetches d') = 1
          /\ pending d' = []).
Proof using Type.
  split; [|split].
  - intros ->. now apply loadMoreEdits_bail.
  - intros Hn Hl. apply loadMoreEdits_bail.
    unfold bailsOut. rewrite Hn, Hl. simpl. apply orb_true_r.
  - intros Hnb.
    cbn [run step].
    rewrite loadMoreEdits_request by reflexivity.
    rewrite completes_Some by (simpl; eauto).
    cbn [state pending trace created constructor app].
    set (out := loadMoreEdits_resume props client (Fulfilled result) _).
    set (d1 := {| state := fst (fst out) |}).
    assert (Hnext : nextBatch (state d1) = None).
    { subst d1 out. simpl. now rewrite Hnb. }
    assert (Hload : isLoading (state d1) = false) by reflexivity.
    rewrite run_fill_bails by (rewrite ?Hnext; reflexivity).
    exists d1. split; [|split].
    + do 4 f_equal. subst out. simpl. now rewrite Hnb.
    + subst d1. unfold fetches. cbn [trace].
      change (requestFrom props (constructor showTwelveHourTimestamps) :: snd (fst out))
        with ([requestFrom props (constructor showTwelveHourTimestamps)] ++ snd (fst out)).
      rewrite List.filter_app. subst out. rewrite resume_no_fetch. reflexivity.
    + reflexivity.
Qed.

(** C1, as amended.  A call that passes the guard makes exactly one request,
    with the current cursor as [from], and returns a promise that is still
    pending.  When a pending request is answered, the fetched events are
    appended to the accumulated list, the cursor becomes the answer's
    [nextBatch] ([null] when absent), [isLoading] becomes false, no further
    request is made, and the promise resolves with [true] exactly when the
    new cursor is a non-empty string: an empty cursor counts as exhausted,
    like [null]. *)
Theorem loadMoreEdits_success
    (backwards : option bool) (d : Mounted)
    (i : nat) (client : MatrixClient) (result : RelationsResult) (d1 : Mounted) :
  (bailsOut backwards (state d) = false ->
     exists d',
       loadMoreEdits props backwards d = (d', None)
       /\ state d' = state d
       /\ pending d' = pending d ++ [requestFrom props (state d)]
       /\ fetches d' = fetches d ++ [requestFrom props (state d)])
  /\ (is_Some (pending d1 !! i) ->
        exists d2 hasMoreResults,
          completes props i client (Fulfilled result) d1
          = Some (d2, Some (Resolved hasMoreResults))
          /\ events (state d2) = events (state d1) ++ r_events result
          /\ nextBatch (state d2) = r_nextBatch result
          /\ isLoading (state d2) = false
          /\ fetches d2 = fetches d1
          /\ pending d2 = delete i (pending d1)
          /\ (hasMoreResults = true <->
                exists s, nextBatch (state d2) = Some s /\ s <> EmptyString)).
Proof using Type.
  split.
  - intros Hguard. rewrite loadMoreEdits_request by exact Hguard.
    eexists. split; [reflexivity|]. cbn [state pending].
    repeat split. unfold fetches at 1. cbn [trace].
    rewrite fetches_app. reflexivity.
  - intros Hpending. rewrite completes_Some by exact Hpending.
    eexists. exists (JS.truthy (r_nextBatch result)).
    split; [|split; [|split; [|split; [|split; [|split]]]]].
    + do 2 f_equal. cbn. now rewrite JSFacts.nullish_None.
    + reflexivity.
    + cbn. apply JSFacts.nullish_None.
    + reflexivity.
    + unfold fetches at 1. cbn [trace]. rewrite fetches_app.
      rewrite resume_no_fetch. apply app_nil_r.
    + reflexivity.
    + cbn [state fst loadMoreEdits_resume nextBatch].
      rewrite JSFacts.nullish_None. apply JSFacts.truthy_true.
Qed.

(** *** The loading flag *)

Lemma bailsOut_loading backwards st :
  isLoading st = true ->
  bailsOut backwards st = JS.truthy_bool backwards.
Proof using Type.
  intros H. unfold bailsOut. rewrite H. simpl.
  rewrite andb_false_r. apply orb_false_r.
Qed.

Lemma resume_isLoading client response st :
  isLoading (fst (fst (loadMoreEdits_resume props client response st))) = true ->
  isLoading st = true.
Proof using Type. destruct response; simpl; [discriminate|trivial]. Qed.

(** [isLoading] is never set back to true, and only [loadMoreEdits] adds a
    pending request. *)
Lemma step_loading a d d' o :
  step props a d = Some (d', o) ->
  isLoading (state d') = true ->
  isLoading (state d) = true
  /\ (length (pending d') <= length (pending d)
      \/ (exists backwards, a = onFillRequest backwards)
      \/ a = componentDidMount).
Proof using Type.
  destruct a as [|backwards|i client response]; simpl.
  - intros [= H]. unfold loadMoreEdits in H.
    destruct (loadMoreEdits_start _ _ _); injection H as <- <-;
      simpl; intros ?; split; eauto.
  - intros [= H]. unfold loadMoreEdits in H.
    destruct (loadMoreEdits_start _ _ _); injection H as <- <-;
      simpl; intros ?; split; eauto.
  - unfold completes. destruct (pending d !! i) as [req|] eqn:Hreq; [|discriminate].
    pose proof (resume_isLoading client response (state d)) as Hres.
    destruct (loadMoreEdits_resume _ _ _ _) as [[st' effects] settled].
    intros [= <- <-]. simpl in *. intros Hl. split; [auto|]. left.
    rewrite length_delete by eauto. lia.
Qed.

Lemma offered_fill_not_loading backwards d :
  offered (onFillRequest backwards) d = true ->
  isLoading (state d) = false /\ error (state d) = None.
Proof using Type.
  simpl. unfold rendersScrollPanel, render.
  destruct (error (state d)) as [err|].
  - destruct (bool_decide _); [discriminate|].
    destruct (JS.truthy _); discriminate.
  - destruct (isLoading (state d)); [discriminate|auto].
Qed.

Lemma reachable_loading_pending showTwelveHourTimestamps d :
  reachable props showTwelveHourTimestamps d ->
  isLoading (state d) = true ->
  length (pending d) <= 1.
Proof using Type.
  induction 1 as [|a d d' o Hreach IH Hoffered Hstep]; intros Hl.
  - rewrite loadMoreEdits_request by reflexivity. simpl. lia.
  - destruct (step_loading _ _ _ _ Hstep Hl) as [Hl0 [Hle|[[b ->]| ->]]].
    + specialize (IH Hl0). lia.
    + apply offered_fill_not_loading in Hoffered as [Hf _]. congruence.
    + discriminate.
Qed.

(** The guard while [isLoading] is true: a call is rejected exactly when
    [backwards] is true, and every other call makes a request.  While
    [isLoading] is true the scroll panel is not rendered, so it cannot ask
    for more, and at most one request is pending. *)
Theorem loading_calls_not_rejected_by_guard
    (backwards : option bool) (st : IState)
    (showTwelveHourTimestamps : bool) (d : Mounted) :
  (isLoading st = true ->
     (loadMoreEdits_start props backwards st = ReturnedFalse <-> backwards = Some true)
     /\ (backwards <> Some true ->
          loadMoreEdits_start props backwards st = Awaiting (requestFrom props st)))
  /\ (reachable props showTwelveHourTimestamps d ->
        isLoading (state d) = true ->
        length (pending d) <= 1
        /\ forall b, offered (onFillRequest b) d = false).
Proof using Type.
  split.
  - intros Hl. unfold loadMoreEdits_start.
    rewrite (bailsOut_loading _ _ Hl).
    destruct backwards as [[|]|]; simpl; split;
      try (split; [reflexivity || discriminate | reflexivity || discriminate]);
      try reflexivity; try congruence.
  - intros Hreach Hl. split.
    + eapply reachable_loading_pending; eauto.
    + intros b. destruct (offered (onFillRequest b) d) eqn:Hoff; [|reflexivity].
      apply offered_fill_not_loading in Hoff as [Hf _]. congruence.
Qed.

(** *** Failure *)

(** C4. When the request of a call fails, the thrown error is stored in the
    state and the promise of that call rejects with it.  Nothing is retried:
    resuming makes no request, the failed request leaves the pending ones
    without replacement, and the dialog then renders an error message rather
    than the scroll panel, so that no further call is offered. *)
Theorem loadMoreEdits_failure
    (i : nat) (client : MatrixClient) (err : MatrixError) (d : Mounted) :
  is_Some (pending d !! i) ->
  exists d',
    completes props i client (Threw err) d = Some (d', Some (Rejected err))
    /\ error (state d') = Some err
    /\ events (state d') = events (state d)
    /\ nextBatch (state d') = nextBatch (state d)
    /\ fetches d' = fetches d
    /\ pending d' = delete i (pending d)
    /\ forall b, offered (onFillRequest b) d' = false.
Proof using Type.
  intros Hpending. rewrite completes_Some by exact Hpending.
  eexists. split; [reflexivity|]. cbn [state fst snd loadMoreEdits_resume].
  split; [reflexivity|]. split; [reflexivity|]. split; [reflexivity|].
  split; [|split; [reflexivity|]].
  - unfold fetches at 1. cbn [trace]. rewrite fetches_app.
    rewrite List.filter_app. destruct (_ && _); apply app_nil_r.
  - intros b. cbn. unfold rendersScrollPanel, render. cbn.
    destruct (bool_decide _); [reflexivity|]. now destruct (JS.truthy _).
Qed.

(** *** The accumulated list *)

Lemma step_events_prefix a d d' o :
  step props a d = Some (d', o) ->
  events (state d) `prefix_of` events (state d').
Proof using Type.
  destruct a as [|backwards|i client response]; simpl.
  - intros [= H]. unfold loadMoreEdits in H.
    now destruct (loadMoreEdits_start _ _ _); injection H as <- <-.
  - intros [= H]. unfold loadMoreEdits in H.
    now destruct (loadMoreEdits_start _ _ _); injection H as <- <-.
  - unfold completes. destruct (pending d !! i); [|discriminate].
    destruct response as [result|err]; simpl; intros [= <- <-]; simpl.
    + now apply prefix_app_r.
    + reflexivity.
Qed.

(** C5. The accumulated list is append-only: along every sequence of
    actions of a dialog instance (mounting, calls of [loadMoreEdits] with
    any argument, answers and failures of pending requests, in any order)
    the list before is a prefix of the list after; a single action leaves it
    unchanged or appends the fetched events at its end. *)
Theorem events_append_only
    (actions : list Action) (d d' : Mounted) (os : list (option Settled)) :
  run props actions d = Some (d', os) ->
  exists appended, events (state d') = events (state d) ++ appended.
Proof using Type.
  revert d os. induction actions as [|a rest IH]; intros d os; simpl.
  - intros [= <- <-]. exists []. now rewrite app_nil_r.
  - destruct (step props a d) as [[d1 o]|] eqn:Hstep; [|discriminate].
    destruct (run props rest d1) as [[d2 os']|] eqn:Hrun; [|discriminate].
    intros [= <- <-].
    destruct (step_events_prefix _ _ _ _ Hstep) as [k1 Hk1].
    destruct (IH _ _ Hrun) as [k2 Hk2].
    exists (k1 ++ k2). rewrite Hk2, Hk1. now rewrite app_assoc.
Qed.

(** *** Pending redactions *)

Lemma redacts_true e pe :
  redacts e pe = true <->
  getType pe = RoomRedaction /\ getAssociatedId pe = getId e.
Proof using Type.
  unfold redacts. rewrite andb_true_iff, String.eqb_eq, bool_decide_eq_true.
  reflexivity.
Qed.

Lemma locallyRedact_marks client room newEvents e pe :
  getRoom client (getRoomId (mxEvent props)) = Some room ->
  In (MarkLocallyRedacted e pe) (locallyRedactEventsIfNeeded props client newEvents)
  <-> In e newEvents /\ List.find (redacts e) (getPendingEvents room) = Some pe.
Proof using Type.
  intros Hroom. unfold locallyRedactEventsIfNeeded. rewrite Hroom.
  rewrite in_flat_map. split.
  - intros (e' & Hin & Hmark).
    destruct (List.find (redacts e') (getPendingEvents room)) as [pe'|] eqn:Hfind;
      simpl in Hmark; [|contradiction].
    destruct Hmark as [[= <- <-]|[]]. auto.
  - intros (Hin & Hfind). exists e. split; [exact Hin|].
    rewrite Hfind. now left.
Qed.

Lemma locallyRedact_only_marks client newEvents eff :
  In eff (locallyRedactEventsIfNeeded props client newEvents) ->
  exists e pe, eff = MarkLocallyRedacted e pe /\ In e newEvents.
Proof using Type.
  unfold locallyRedactEventsIfNeeded.
  destruct (getRoom client _) as [room|]; [|intros []].
  rewrite in_flat_map. intros (e & Hin & Heff).
  destruct (List.find _ _) as [pe|]; simpl in Heff; [|contradiction].
  destruct Heff as [<-|[]]. eauto.
Qed.

(** C6. When a batch is fetched, [markLocallyRedacted] is called, before the
    state is set, on exactly those events of the batch whose id is the
    associated id of a pending event of type room redaction of the dialog's
    room, each with the first such pending event; an event of the batch with
    no such pending event is not marked.  (When the client does not know
    the room there are no pending events to scan and nothing is marked.) *)
Theorem pending_redactions_marked_before_commit
    (client : MatrixClient) (result : RelationsResult) (st : IState) :
  let marks := locallyRedactEventsIfNeeded props client (r_events result) in
  let st' := fst (fst (loadMoreEdits_resume props client (Fulfilled result) st)) in
  snd (fst (loadMoreEdits_resume props client (Fulfilled result) st))
  = marks ++ [SetState st']
  /\ events st' = events st ++ r_events result
  /\ (forall eff, In eff marks ->
        exists e pe, eff = MarkLocallyRedacted e pe /\ In e (r_events result))
  /\ (getRoom client (getRoomId (mxEvent props)) = None -> marks = [])
  /\ forall room,
       getRoom client (getRoomId (mxEvent props)) = Some room ->
       forall e, In e (r_events result) ->
         ((exists pe, In pe (getPendingEvents room)
                      /\ getType pe = RoomRedaction
                      /\ getAssociatedId pe = getId e) ->
          exists pe, In pe (getPendingEvents room)
                     /\ getType pe = RoomRedaction
                     /\ getAssociatedId pe = getId e
                     /\ List.find (redacts e) (getPendingEvents room) = Some pe
                     /\ In (MarkLocallyRedacted e pe) marks)
         /\ ((forall pe, In pe (getPendingEvents room) ->
                         ~ (getType pe = RoomRedaction
                            /\ getAssociatedId pe = getId e)) ->
             forall pe, ~ In (MarkLocallyRedacted e pe) marks).
Proof using Type.
  intros marks st'. split; [reflexivity|]. split; [reflexivity|].
  split; [|split].
  - apply locallyRedact_only_marks.
  - intros Hroom. subst marks. unfold locallyRedactEventsIfNeeded. now rewrite Hroom.
  - intros room Hroom e Hin. split.
    + intros (pe & Hpe & Hty & Hassoc).
      destruct (List.find (redacts e) (getPendingEvents room)) as [pe'|] eqn:Hfind.
      * apply find_some in Hfind as Hsome. destruct Hsome as [Hin' Hred].
        apply redacts_true in Hred as [Hty' Hassoc'].
        exists pe'. repeat split; auto.
        apply (locallyRedact_marks client room); auto.
      * exfalso. apply (find_none _ _ Hfind) in Hpe.
        assert (redacts e pe = true) by (apply redacts_true; auto).
        congruence.
    + intros Hnone pe Hmark.
      apply (locallyRedact_marks client room) in Hmark as [_ Hfind]; [|exact Hroom].
      apply find_some in Hfind as [Hin' Hred].
      apply redacts_true in Hred. exact (Hnone pe Hin' Hred).
Qed.

(** *** Error messages *)

(** C9, as amended.  While an error is stored, the content rendered depends
    only on its code, read as a JavaScript condition: the unsupported-feature
    message exactly for the code M_UNRECOGNIZED, the generic message exactly
    for any other non-empty code, and the unreachable-host message exactly
    when the code is absent or is the empty string.  The scroll panel is not
    rendered, so the dialog asks for nothing more. *)
Theorem render_error_message (st : IState) (err : MatrixError) :
  error st = Some err ->
  (render st = FeatureUnsupported <-> errcode err = Some "M_UNRECOGNIZED")
  /\ (render st = SomethingWentWrong <->
        exists code, errcode err = Some code
                     /\ code <> EmptyString /\ code <> "M_UNRECOGNIZED")
  /\ (render st = CannotReachHomeserver <->
        errcode err = None \/ errcode err = Some EmptyString)
  /\ (forall st' err', error st' = Some err' -> errcode err' = errcode err ->
        render st' = render st)
  /\ rendersScrollPanel st = false
  /\ forall b d, state d = st -> offered (onFillRequest b) d = false.
Proof using Type.
  intros Herr.
  assert (Hrender : render st =
            if bool_decide (errcode err = Some "M_UNRECOGNIZED") then FeatureUnsupported
            else if JS.truthy (errcode err) then SomethingWentWrong
            else CannotReachHomeserver).
  { unfold render. now rewrite Herr. }
  assert (Hpanel : rendersScrollPanel st = false).
  { unfold rendersScrollPanel. rewrite Hrender.
    destruct (bool_decide _); [reflexivity|]. now destruct (JS.truthy _). }
  split; [|split; [|split; [|split; [|split]]]].
  - rewrite Hrender. case_bool_decide as Hc; [tauto|].
    destruct (JS.truthy _); split; (discriminate || contradiction).
  - rewrite Hrender. case_bool_decide as Hc.
    + split; [discriminate|]. intros (code & Hcode & _ & Hne). congruence.
    + destruct (JS.truthy (errcode err)) eqn:Ht.
      * apply JSFacts.truthy_true in Ht as (code & Hcode & Hne).
        split; [|reflexivity]. intros _. exists code. repeat split; auto.
        intros ->. congruence.
      * split; [discriminate|]. intros (code & Hcode & Hne & _).
        apply JSFacts.truthy_false in Ht as [Ht|Ht]; congruence.
  - rewrite Hrender. case_bool_decide as Hc.
    + split; [discriminate|]. rewrite Hc. intros [[=]|[=]].
    + destruct (JS.truthy (errcode err)) eqn:Ht.
      * split; [discriminate|].
        apply JSFacts.truthy_true in Ht as (code & Hcode & Hne).
        intros [H|H]; congruence.
      * apply JSFacts.truthy_false in Ht. tauto.
  - intros st' err' Herr' Hcode. rewrite Hrender.
    unfold render. rewrite Herr', Hcode. reflexivity.
  - exact Hpanel.
  - intros b d <-. exact Hpanel.
Qed.

End Pagination.

(** *** The statements on sample data *)

Lemma loadMoreEdits_rejects_backwards_and_exhausted_witness :
  loadMoreEdits Samples.props (Some true) Samples.exhausted
  = (Samples.exhausted, Some (Resolved false))
  /\ (exists d',
        run Samples.props
          (componentDidMount :: Completes 0 Samples.client (Fulfilled Samples.lastPage)
             :: map onFillRequest [None; Some false; Some true])
          (created false)
        = Some (d', None :: Some (Resolved false)
                      :: map (fun _ => Some (Resolved false))
                           [None; Some false; Some true])
        /\ length (fetches d') = 1
        /\ pending d' = []).
Proof.
  destruct (loadMoreEdits_rejects_backwards_and_exhausted
              Samples.props (Some true) Samples.exhausted false
              Samples.client Samples.lastPage [None; Some false; Some true])
    as (Hbackwards & Hexhausted & Hrun).
  split.
  - apply Hbackwards. reflexivity.
  - apply Hrun. reflexivity.
Defined.

(** C1 as stated fails on a page whose [nextBatch] is the empty string: the
    call made on mount passes the guard, the answer installs a cursor that
    is not [null], and the promise resolves with [false]. *)
Lemma empty_cursor_resolves_false :
  bailsOut None (constructor false) = false
  /\ snd (loadMoreEdits_resume Samples.props Samples.client
            (Fulfilled Samples.emptyCursorPage) (constructor false))
     = Resolved false
  /\ nextBatch (fst (fst (loadMoreEdits_resume Samples.props Samples.client
                            (Fulfilled Samples.emptyCursorPage) (constructor false))))
     = Some EmptyString
  /\ nextBatch (fst (fst (loadMoreEdits_resume Samples.props Samples.client
                            (Fulfilled Samples.emptyCursorPage) (constructor false))))
     <> None.
Proof. repeat split; discriminate. Qed.

Lemma loadMoreEdits_success_witness :
  (exists d',
     loadMoreEdits Samples.props None (created false) = (d', None)
     /\ state d' = state (created false)
     /\ pending d' = [requestFrom Samples.props (constructor false)]
     /\ fetches d' = [requestFrom Samples.props (constructor false)])
  /\ (exists d2 hasMoreResults,
        completes Samples.props 0 Samples.client (Fulfilled Samples.firstPage)
          Samples.mounted
        = Some (d2, Some (Resolved hasMoreResults))
        /\ events (state d2) = [Samples.edit2]
        /\ nextBatch (state d2) = Some "t1"
        /\ isLoading (state d2) = false
        /\ fetches d2 = fetches Samples.mounted
        /\ pending d2 = []
        /\ (hasMoreResults = true <->
              exists s, nextBatch (state d2) = Some s /\ s <> EmptyString)).
Proof.
  destruct (loadMoreEdits_success Samples.props None (created false)
              0 Samples.client Samples.firstPage Samples.mounted)
    as (Hcall & Hanswer).
  split.
  - apply Hcall. reflexivity.
  - apply Hanswer. exists (requestFrom Samples.props (constructor false)).
    reflexivity.
Defined.

Lemma loading_calls_not_rejected_by_guard_witness :
  ((loadMoreEdits_start Samples.props None (constructor false) = ReturnedFalse
    <-> None = Some true)
   /\ loadMoreEdits_start Samples.props None (constructor false)
      = Awaiting (requestFrom Samples.props (constructor false)))
  /\ length (pending Samples.mounted) <= 1
  /\ forall b, offered (onFillRequest b) Samples.mounted = false.
Proof.
  destruct (loading_calls_not_rejected_by_guard
              Samples.props None (constructor false) false Samples.mounted)
    as (Hguard & Hview).
  split.
  - destruct (Hguard eq_refl) as (Hiff & Hrequest).
    split; [exact Hiff|]. apply Hrequest. discriminate.
  - apply Hview; [apply reachable_mounted | reflexivity].
Defined.

Lemma loadMoreEdits_failure_witness :
  exists d',
    completes Samples.props 0 Samples.client (Threw Samples.unrecognized)
      Samples.mounted
    = Some (d', Some (Rejected Samples.unrecognized))
    /\ error (state d') = Some Samples.unrecognized
    /\ events (state d') = []
    /\ nextBatch (state d') = None
    /\ fetches d' = fetches Samples.mounted
    /\ pending d' = []
    /\ forall b, offered (onFillRequest b) d' = false.
Proof.
  apply (loadMoreEdits_failure Samples.props 0 Samples.client
           Samples.unrecognized Samples.mounted).
  exists (requestFrom Samples.props (constructor false)). reflexivity.
Defined.

Lemma events_append_only_witness :
  exists appended,
    events (state Samples.afterTwoPages)
    = events (state (created false)) ++ appended.
Proof.
  apply (events_append_only Samples.props Samples.twoPages (created false)
           Samples.afterTwoPages Samples.twoPagesReports).
  reflexivity.
Defined.

Lemma pending_redactions_marked_before_commit_witness :
  (exists pe,
     In pe (getPendingEvents Samples.room)
     /\ getType pe = RoomRedaction
     /\ getAssociatedId pe = getId Samples.edit1
     /\ List.find (redacts Samples.edit1) (getPendingEvents Samples.room) = Some pe
     /\ In (MarkLocallyRedacted Samples.edit1 pe)
          (locallyRedactEventsIfNeeded Samples.props Samples.client
             [Samples.edit1; Samples.edit2]))
  /\ forall pe,
       ~ In (MarkLocallyRedacted Samples.edit2 pe)
           (locallyRedactEventsIfNeeded Samples.props Samples.client
              [Samples.edit1; Samples.edit2]).
Proof.
  destruct (pending_redactions_marked_before_commit Samples.props Samples.client
              {| r_originalEvent := None;
                 r_events := [Samples.edit1; Samples.edit2];
                 r_nextBatch := None |}
              (constructor false))
    as (_ & _ & _ & _ & Hroom).
  split.
  - apply (Hroom Samples.room eq_refl Samples.edit1); [simpl; auto|].
    exists Samples.redaction1. repeat split. simpl. auto.
  - apply (Hroom Samples.room eq_refl Samples.edit2); [simpl; auto|].
    intros pe [<-|[]] [_ Hassoc]. discriminate.
Defined.

(** C9 as stated fails on an error whose code is the empty string: a code
    is present and it is not M_UNRECOGNIZED, yet the dialog shows the
    unreachable-host message and not the generic one. *)
Lemma empty_code_renders_unreachable :
  error Samples.failedEmptyCode = Some Samples.emptyCode
  /\ errcode Samples.emptyCode <> None
  /\ errcode Samples.emptyCode <> Some "M_UNRECOGNIZED"
  /\ render Samples.failedEmptyCode = CannotReachHomeserver
  /\ render Samples.failedEmptyCode <> SomethingWentWrong.
Proof. repeat split; discriminate. Qed.

Lemma render_error_message_witness :
  render Samples.failedEmptyCode = CannotReachHomeserver
  /\ rendersScrollPanel Samples.failedEmptyCode = false.
Proof.
  destruct (render_error_message Samples.failedEmptyCode Samples.emptyCode eq_refl)
    as (_ & _ & Hunreachable & _ & Hpanel & _).
  split; [|exact Hpanel].
  apply Hunreachable. right. reflexivity.
Defined.

End DialogSpec.


(** ** The plain-text composer listeners *)

Module ComposerSpec.

Import Composer.

Section Listeners.

Variable textareaValue : string -> string.
Variable Key_ENTER : string.
Variable IS_MAC : bool.
Variable ctrlEnterToSend : bool.
Variable handleEventWithAutocomplete : KeyboardEvent -> bool.
Variable onChange_given : bool.
Variable onSend_given : bool.

Local Abbreviation send := (Composer.send onSend_given).
Local Abbreviation sendAction := (Composer.sendAction onSend_given).
Local Abbreviation setText := (Composer.setText onChange_given).
Local Abbreviation enterShouldSend := (Composer.enterShouldSend ctrlEnterToSend).
Local Abbreviation amendInnerHtml := (Composer.amendInnerHtml textareaValue).
Local Abbreviation onInput :=
  (Composer.onInput textareaValue ctrlEnterToSend onChange_given).
Local Abbreviation onKeyDown :=
  (Composer.onKeyDown Key_ENTER IS_MAC ctrlEnterToSend
     handleEventWithAutocomplete onSend_given).
Local Abbreviation usePlainTextListeners :=
  (Composer.usePlainTextListeners textareaValue Key_ENTER IS_MAC ctrlEnterToSend
     handleEventWithAutocomplete onChange_given onSend_given).

Lemma send_eq h :
  send h = (tt, cleared h, if onSend_given then [OnSend] else []).
Proof using Type.
  unfold Composer.send, bind, readRef, when, cleared.
  destruct h as [[html|] c]; destruct onSend_given; reflexivity.
Qed.

Lemma sendAction_eq h :
  sendAction h
  = (tt, cleared h,
     PreventDefault :: StopPropagation :: (if onSend_given then [OnSend] else [])).
Proof using Type.
  unfold Composer.sendAction, bind at 1 2. cbn [call].
  rewrite send_eq. reflexivity.
Qed.

Lemma onKeyDown_eq event h :
  onKeyDown event h =
    if handleEventWithAutocomplete event then (tt, h, [])
    else if negb (String.eqb (key event) Key_ENTER) then (tt, h, [])
    else if enterShouldSend
         then (if shiftKey event then (tt, h, []) else sendAction h)
         else (if (if IS_MAC then metaKey event else ctrlKey event)
               then sendAction h else (tt, h, [])).
Proof using Type.
  unfold Composer.onKeyDown.
  destruct (handleEventWithAutocomplete event); [reflexivity|].
  destruct (String.eqb _ _); [|reflexivity]. cbn [negb when].
  rewrite !sendAction_eq.
  unfold Composer.enterShouldSend.
  destruct ctrlEnterToSend, (shiftKey event),
    (if IS_MAC then metaKey event else ctrlKey event);
    cbn [negb andb when]; unfold bind; cbn [call ret];
    rewrite ?send_eq; cbn [app]; rewrite ?app_nil_r; reflexivity.
Qed.

Lemma sendAction_not_idle h : sendAction h <> (tt, h, []).
Proof using Type. rewrite sendAction_eq. intros [=]. Qed.

Lemma sendAction_calls_OnSend h :
  onSend_given = true -> In OnSend (callsOf sendAction h).
Proof using Type.
  intros Hgiven. unfold callsOf. rewrite sendAction_eq, Hgiven.
  simpl. auto.
Qed.

(** C7. A key-down that the autocomplete handles does nothing in the hook,
    so it never sends.  For an unhandled key-down whose key is Enter, the
    send action (the editor emptied and [onSend] called, after the event's
    default has been prevented and its propagation stopped) runs, once, if
    and only if Shift is not held when enter sends, and if and only if the
    platform modifier (Meta on Mac, Control otherwise) is held when it does
    not; otherwise the handler does nothing. *)
Theorem onKeyDown_enter_sends (event : KeyboardEvent) (h : Hook) :
  (handleEventWithAutocomplete event = true ->
     onKeyDown event h = (tt, h, [])
     /\ onKeyDown event h <> sendAction h
     /\ ~ In OnSend (callsOf (onKeyDown event) h))
  /\ (handleEventWithAutocomplete event = false -> key event = Key_ENTER ->
        (enterShouldSend = true ->
           (onKeyDown event h = sendAction h <-> shiftKey event = false))
        /\ (enterShouldSend = false ->
              (onKeyDown event h = sendAction h <->
                 (if IS_MAC then metaKey event else ctrlKey event) = true))
        /\ (onKeyDown event h = sendAction h \/ onKeyDown event h = (tt, h, []))
        /\ (onSend_given = true ->
              (In OnSend (callsOf (onKeyDown event) h) <->
                 onKeyDown event h = sendAction h)
              /\ (count_occ Call_eq_dec (callsOf (onKeyDown event) h) OnSend <= 1)))
  /\ sendAction h
     = (tt, cleared h,
        PreventDefault :: StopPropagation :: (if onSend_given then [OnSend] else [])).
Proof using Type.
  clear textareaValue onChange_given.
  pose proof (sendAction_not_idle h) as Hne.
  split; [|split].
  - intros Hhandled. rewrite onKeyDown_eq, Hhandled.
    unfold callsOf. rewrite onKeyDown_eq, Hhandled. simpl.
    repeat split; auto.
  - intros Hhandled Hkey.
    assert (Heq : onKeyDown event h =
              if enterShouldSend
              then (if shiftKey event then (tt, h, []) else sendAction h)
              else (if (if IS_MAC then metaKey event else ctrlKey event)
                    then sendAction h else (tt, h, []))).
    { rewrite onKeyDown_eq, Hhandled, Hkey, String.eqb_refl. reflexivity. }
    split; [|split; [|split]].
    + intros He. rewrite Heq, He.
      destruct (shiftKey event); split; congruence.
    + intros He. rewrite Heq, He.
      destruct (if IS_MAC then metaKey event else ctrlKey event);
        split; congruence.
    + rewrite Heq.
      destruct enterShouldSend, (shiftKey event),
        (if IS_MAC then metaKey event else ctrlKey event); auto.
    + intros Hgiven. unfold callsOf. rewrite Heq.
      pose proof (sendAction_calls_OnSend h Hgiven) as Hin.
      unfold callsOf in Hin.
      assert (Hcount : count_occ Call_eq_dec (snd (sendAction h)) OnSend <= 1).
      { rewrite sendAction_eq, Hgiven. simpl.
        repeat (destruct (Call_eq_dec _ _); try congruence); lia. }
      destruct enterShouldSend, (shiftKey event),
        (if IS_MAC then metaKey event else ctrlKey event);
        simpl; split; try tauto; try lia; try (split; [contradiction|congruence]).
  - apply sendAction_eq.
Qed.

(** The paragraphs the editor inserts become line feeds. *)
Example amendInnerHtml_paragraphs :
  Composer.amendInnerHtml (fun html => html) "foo<div><br></div><div>bar</div>"
  = ("foo" +:+ JS.newline +:+ JS.newline +:+ "bar")%string.
Proof. reflexivity. Qed.

(** Each replacement is one pass over its input: what the removal of the
    closing tags joins is not searched again. *)
Example removal_is_one_pass :
  JS.replace_all "</div>" EmptyString "</d</div>iv>" = "</div>".
Proof. reflexivity. Qed.

(** C8. For an input event whose target is a [div] the content committed
    (stored in [content] and passed to [onChange]) is the raw [innerHTML]
    when enter sends, and otherwise its normal form.  The normal form is
    obtained from what the browser's decoding of the entities returns by
    replacing every [<div><br></div>] by a line feed, then every remaining
    [<div>] by a line feed, then every [</div>] by nothing, where replacing
    every occurrence keeps the text between the occurrences as it is; the
    three steps have no other result than the content committed, and after
    the first two no occurrence of their pattern is left.  A target that is
    not a [div] commits nothing.  Paste events are given the same handler. *)
Theorem onInput_commits_content (innerHTML : string) (h : Hook) :
  let decoded := textareaValue innerHTML in
  let stage1 := JS.replace_all "<div><br></div>" JS.newline decoded in
  let stage2 := JS.replace_all "<div>" JS.newline stage1 in
  let normalized := JS.replace_all "</div>" EmptyString stage2 in
  let committed := if enterShouldSend then innerHTML else normalized in
  onInput (HTMLDivElement innerHTML) h
  = (tt, {| ref_current := ref_current h; content := Some committed |},
     if onChange_given then [OnChange committed] else [])
  /\ content (stateAfter (onInput (HTMLDivElement innerHTML)) h) = Some committed
  /\ amendInnerHtml innerHTML = normalized
  /\ (forall i, JS.occurs_at "<div><br></div>" i stage1 = false)
  /\ (forall i, JS.occurs_at "<div>" i stage2 = false)
  /\ onInput OtherTarget h = (tt, h, [])
  /\ listener_onPaste usePlainTextListeners = listener_onInput usePlainTextListeners
  /\ listener_onPaste usePlainTextListeners (HTMLDivElement innerHTML) h
     = onInput (HTMLDivElement innerHTML) h
  /\ ReplaceSpec.ReplacedEvery "<div><br></div>" JS.newline decoded stage1
  /\ ReplaceSpec.ReplacedEvery "<div>" JS.newline stage1 stage2
  /\ ReplaceSpec.ReplacedEvery "</div>" EmptyString stage2 normalized
  /\ (forall withoutBreaks withoutOpenings text,
        ReplaceSpec.ReplacedEvery "<div><br></div>" JS.newline
          (textareaValue innerHTML) withoutBreaks ->
        ReplaceSpec.ReplacedEvery "<div>" JS.newline withoutBreaks withoutOpenings ->
        ReplaceSpec.ReplacedEvery "</div>" EmptyString withoutOpenings text ->
        amendInnerHtml innerHTML = text
        /\ (enterShouldSend = false ->
              content (stateAfter (onInput (HTMLDivElement innerHTML)) h)
              = Some text
              /\ callsOf (onInput (HTMLDivElement innerHTML)) h
                 = if onChange_given then [OnChange text] else [])).
Proof using Type.
  intros decoded stage1 stage2 normalized committed.
  assert (Hrun : onInput (HTMLDivElement innerHTML) h
                 = (tt, {| ref_current := ref_current h; content := Some committed |},
                    if onChange_given then [OnChange committed] else [])).
  { unfold Composer.onInput, Composer.setText, bind, setContent, when.
    change (amendInnerHtml innerHTML) with normalized. fold committed.
    destruct onChange_given; reflexivity. }
  split; [exact Hrun|].
  split; [unfold stateAfter; now rewrite Hrun|].
  split; [reflexivity|].
  split; [intros i; now apply JSFacts.replace_newline_no_occurrence|].
  split; [intros i; now apply JSFacts.replace_newline_no_occurrence|].
  split; [reflexivity|]. split; [reflexivity|]. split; [reflexivity|].
  split; [now apply StringFacts.replace_all_replaces|].
  split; [now apply StringFacts.replace_all_replaces|].
  split; [now apply StringFacts.replace_all_replaces|].
  intros withoutBreaks withoutOpenings text Hbreaks Hopenings Hclosings.
  apply StringFacts.replaced_unique in Hbreaks; [|discriminate].
  apply StringFacts.replaced_unique in Hopenings; [|discriminate].
  apply StringFacts.replaced_unique in Hclosings; [|discriminate].
  assert (Htext : text = normalized) by (subst; reflexivity).
  split; [now rewrite Htext|].
  intros Hmode. unfold stateAfter, callsOf. rewrite Hrun.
  unfold committed. rewrite Hmode, Htext. split; reflexivity.
Qed.

(** C10. [send] only empties the editor node (when one is attached) and
    calls [onSend] (when one was given): the [content] state is the same
    after as before and [onChange] is not called.  The same holds for every
    key-down, sending or not, so after a send [content] still holds the text
    from before it. *)
Theorem send_leaves_content (event : KeyboardEvent) (h : Hook) :
  content (stateAfter send h) = content h
  /\ (forall text, ~ In (OnChange text) (callsOf send h))
  /\ stateAfter send h = cleared h
  /\ callsOf send h = (if onSend_given then [OnSend] else [])
  /\ content (stateAfter (onKeyDown event) h) = content h
  /\ (forall text, ~ In (OnChange text) (callsOf (onKeyDown event) h)).
Proof using Type.
  clear textareaValue onChange_given.
  unfold stateAfter, callsOf. rewrite send_eq, onKeyDown_eq, sendAction_eq.
  cbn [fst snd].
  split; [reflexivity|]. split.
  { intros text. destruct onSend_given; simpl; intuition discriminate. }
  split; [reflexivity|]. split; [reflexivity|]. split.
  - destruct (handleEventWithAutocomplete event),
      (negb (String.eqb (key event) Key_ENTER)), enterShouldSend,
      (shiftKey event), (if IS_MAC then metaKey event else ctrlKey event);
      reflexivity.
  - intros text.
    destruct (handleEventWithAutocomplete event),
      (negb (String.eqb (key event) Key_ENTER)), enterShouldSend,
      (shiftKey event), (if IS_MAC then metaKey event else ctrlKey event),
      onSend_given; simpl; intuition discriminate.
Qed.

End Listeners.

(** *** The statements on sample data *)

Lemma onInput_commits_content_witness :
  Composer.amendInnerHtml (fun html => html) "one<div><br></div><div>two</div>"
  = ("one" +:+ JS.newline +:+ JS.newline +:+ "two")%string
  /\ content
       (stateAfter
          (Composer.onInput (fun html => html) true true
             (HTMLDivElement "one<div><br></div><div>two</div>"))
          Samples.typed)
     = Some ("one" +:+ JS.newline +:+ JS.newline +:+ "two")%string.
Proof.
  destruct (onInput_commits_content (fun html => html) "Enter" false true
              Samples.handlesTab true true
              "one<div><br></div><div>two</div>" Samples.typed)
    as (_ & _ & _ & _ & _ & _ & _ & _ & _ & _ & _ & Hspec).
  destruct (Hspec
              ("one" +:+ JS.newline +:+ "<div>two</div>")%string
              ("one" +:+ JS.newline +:+ JS.newline +:+ "two</div>")%string
              ("one" +:+ JS.newline +:+ JS.newline +:+ "two")%string)
    as (Hnormal & Hcommitted).
  - apply (StringFacts.replace_all_replaces "<div><br></div>" JS.newline
             "one<div><br></div><div>two</div>"). discriminate.
  - apply (StringFacts.replace_all_replaces "<div>" JS.newline
             ("one" +:+ JS.newline +:+ "<div>two</div>")%string). discriminate.
  - apply (StringFacts.replace_all_replaces "</div>" EmptyString
             ("one" +:+ JS.newline +:+ JS.newline +:+ "two</div>")%string).
    discriminate.
  - split; [exact Hnormal|]. apply (Hcommitted eq_refl).
Defined.

Lemma onKeyDown_enter_sends_witness :
  (* handled by the autocomplete *)
  Composer.onKeyDown "Enter" false false Samples.handlesTab true
    Samples.tab Samples.typed = (tt, Samples.typed, [])
  (* enter sends, Shift not held *)
  /\ Composer.onKeyDown "Enter" false false Samples.handlesTab true
       Samples.enter Samples.typed
     = Composer.sendAction true Samples.typed
  (* enter does not send, Control held *)
  /\ Composer.onKeyDown "Enter" false true Samples.handlesTab true
       Samples.ctrlEnter Samples.typed
     = Composer.sendAction true Samples.typed
  /\ In OnSend
       (callsOf (Composer.onKeyDown "Enter" false false Samples.handlesTab true
                   Samples.enter) Samples.typed).
Proof.
  destruct (onKeyDown_enter_sends "Enter" false false Samples.handlesTab true
              Samples.tab Samples.typed) as (Hhandled & _ & _).
  destruct (onKeyDown_enter_sends "Enter" false false Samples.handlesTab true
              Samples.enter Samples.typed) as (_ & Henter & _).
  destruct (onKeyDown_enter_sends "Enter" false true Samples.handlesTab true
              Samples.ctrlEnter Samples.typed) as (_ & Hctrl & _).
  destruct (Henter eq_refl eq_refl) as (Hsends & _ & _ & Hcalls).
  destruct (Hctrl eq_refl eq_refl) as (_ & Hmodifier & _ & _).
  split; [apply (Hhandled eq_refl)|].
  split; [apply (Hsends eq_refl); reflexivity|].
  split; [apply (Hmodifier eq_refl); reflexivity|].
  apply (Hcalls eq_refl). apply (Hsends eq_refl). reflexivity.
Defined.

End ComposerSpec.


(** ** Runs of the dialog *)

Module DialogRunsSpec.

Import Dialog DialogRuns.

Section Runs.

Variable props : IProps.

Lemma loadMoreEdits_kind a backwards d d' o :
  (a = onFillRequest backwards \/ a = componentDidMount /\ backwards = None) ->
  loadMoreEdits props backwards d = (d', o) ->
  StepKind props d a d' o.
Proof using Type.
  intros Ha Hcall. destruct (bailsOut backwards (state d)) eqn:Hguard.
  - rewrite DialogSpec.loadMoreEdits_bail in Hcall by exact Hguard.
    injection Hcall as <- <-. now apply (step_bails props d a backwards).
  - rewrite DialogSpec.loadMoreEdits_request in Hcall by exact Hguard.
    injection Hcall as <- <-. now apply (step_requests props d a backwards).
Qed.

Lemma step_kind a d d' o :
  step props a d = Some (d', o) -> StepKind props d a d' o.
Proof using Type.
  destruct a as [|backwards|i client response]; simpl.
  - intros [= H]. apply (loadMoreEdits_kind _ None); auto.
  - intros [= H]. apply (loadMoreEdits_kind _ backwards); auto.
  - intros H. destruct (pending d !! i) as [req|] eqn:Hreq.
    + rewrite DialogSpec.completes_Some in H by (rewrite Hreq; eauto).
      injection H as <- <-. apply step_completes. rewrite Hreq. eauto.
    + unfold completes in H. now rewrite Hreq in H.
Qed.

(** What every step of a run preserves, the run preserves. *)
Lemma run_preserves (P : Mounted -> Prop) actions :
  (forall a d d' o, In a actions -> step props a d = Some (d', o) -> P d -> P d') ->
  forall d d' os, run props actions d = Some (d', os) -> P d -> P d'.
Proof using Type.
  induction actions as [|a rest IH]; intros Hstep d d' os; simpl.
  - now intros [= <- <-].
  - destruct (step props a d) as [[d1 o]|] eqn:Ha; [|discriminate].
    destruct (run props rest d1) as [[d2 os']|] eqn:Hrest; [|discriminate].
    intros [= <- <-] HP.
    apply (IH (fun a' d0 d0' o' Hin => Hstep a' d0 d0' o' (or_intror Hin))
              d1 d2 os' Hrest).
    apply (Hstep a d d1 o); auto. now left.
Qed.

Lemma resume_state_Fulfilled client result st :
  fst (fst (loadMoreEdits_resume props client (Fulfilled result) st))
  = {| originalEvent := JS.nullish (originalEvent st) (r_originalEvent result);
       error := error st;
       events := events st ++ r_events result;
       nextBatch := r_nextBatch result;
       isLoading := false;
       isTwelveHour := isTwelveHour st |}.
Proof using Type.
  simpl. now rewrite !JSFacts.nullish_None.
Qed.

Lemma resume_state_Threw client err st :
  fst (fst (loadMoreEdits_resume props client (Threw err) st))
  = {| originalEvent := originalEvent st;
       error := Some err;
       events := events st;
       nextBatch := nextBatch st;
       isLoading := isLoading st;
       isTwelveHour := isTwelveHour st |}.
Proof using Type. reflexivity. Qed.

Lemma run_cons a rest d d' os :
  run props (a :: rest) d = Some (d', os) ->
  exists d1 o os',
    step props a d = Some (d1, o)
    /\ run props rest d1 = Some (d', os')
    /\ os = o :: os'.
Proof using Type.
  cbn [run]. destruct (step props a d) as [[d1 o]|]; [|discriminate].
  destruct (run props rest d1) as [[d2 os']|] eqn:Hrest; [|discriminate].
  intros [= <- <-]. exists d1, o, os'. repeat split. exact Hrest.
Qed.

(** The state after one step, by the kind of action. *)
Lemma step_state a d d' o :
  step props a d = Some (d', o) ->
  state d' = match a with
             | Completes _ client response =>
                 fst (fst (loadMoreEdits_resume props client response (state d)))
             | _ => state d
             end.
Proof using Type.
  intros H. apply step_kind in H.
  destruct H as [a b [->|[-> _]] _|a b [->|[-> _]] _|i client response _];
    reflexivity.
Qed.

Lemma last_cons {A} (x : A) l dflt : List.last (x :: l) dflt = List.last l x.
Proof.
  revert x dflt. induction l as [|y l IH]; intros x dflt; [reflexivity|].
  change (List.last (x :: y :: l) dflt) with (List.last (y :: l) dflt).
  now rewrite (IH y dflt), (IH y x).
Qed.

(** X1. The accumulated list after a run is the list before it followed by
    the batches of the answers, in the order in which the answers arrived. *)
Theorem events_are_answered_batches
    (actions : list Action) (d d' : Mounted) (os : list (option Settled)) :
  run props actions d = Some (d', os) ->
  events (state d') = events (state d) ++ answeredEvents actions.
Proof using Type.
  revert d os. induction actions as [|a rest IH]; intros d os Hrun.
  - injection Hrun as <- <-. simpl. now rewrite app_nil_r.
  - apply run_cons in Hrun as (d1 & o & os' & Hstep & Hrest & _).
    rewrite (IH _ _ Hrest), (step_state _ _ _ _ Hstep).
    destruct a as [| |i client [result|err]]; try reflexivity.
    rewrite resume_state_Fulfilled. simpl. now rewrite app_assoc.
Qed.

(** X2. The cursor after a run is the [nextBatch] of the last answer of the
    run ([null] when that answer had none), whichever request it answered;
    without an answer the cursor is unchanged.  Failures and calls never
    move it. *)
Theorem cursor_is_last_answer
    (actions : list Action) (d d' : Mounted) (os : list (option Settled)) :
  run props actions d = Some (d', os) ->
  nextBatch (state d') = List.last (answeredCursors actions) (nextBatch (state d)).
Proof using Type.
  revert d os. induction actions as [|a rest IH]; intros d os Hrun.
  - injection Hrun as <- <-. reflexivity.
  - apply run_cons in Hrun as (d1 & o & os' & Hstep & Hrest & _).
    rewrite (IH _ _ Hrest), (step_state _ _ _ _ Hstep).
    destruct a as [| |i client [result|err]]; try reflexivity.
    rewrite resume_state_Fulfilled. cbn [answeredCursors nextBatch].
    now rewrite last_cons.
Qed.

(** X3. The stored error after a run is the one thrown by the last failure
    of the run; an answer that arrives later does not clear it.  So once an
    error is stored the dialog renders an error message, never the spinner
    or the scroll panel, for the rest of its life. *)
Theorem error_is_last_failure
    (actions : list Action) (d d' : Mounted) (os : list (option Settled)) :
  run props actions d = Some (d', os) ->
  error (state d') = List.last (map Some (thrownErrors actions)) (error (state d))
  /\ (is_Some (error (state d)) ->
        is_Some (error (state d'))
        /\ rendersScrollPanel (state d') = false
        /\ render (state d') <> SpinnerContent).
Proof using Type.
  intros Hrun.
  assert (Herr : error (state d')
                 = List.last (map Some (thrownErrors actions)) (error (state d))).
  { revert d os Hrun. induction actions as [|a rest IH]; intros d os Hrun.
    - injection Hrun as <- <-. reflexivity.
    - apply run_cons in Hrun as (d1 & o & os' & Hstep & Hrest & _).
      rewrite (IH _ _ Hrest), (step_state _ _ _ _ Hstep).
      destruct a as [| |i client [result|err]]; try reflexivity.
      cbn [thrownErrors map]. now rewrite last_cons. }
  split; [exact Herr|].
  intros Hbefore.
  assert (Hafter : is_Some (error (state d'))).
  { rewrite Herr. clear Herr Hrun.
    generalize (error (state d)) Hbefore.
    induction (thrownErrors actions) as [|err errs IH]; intros e He; [exact He|].
    cbn [map]. rewrite last_cons. apply IH. eauto. }
  split; [exact Hafter|].
  destruct Hafter as [err Hsome].
  unfold rendersScrollPanel, render. rewrite Hsome.
  destruct (bool_decide _); [split; [reflexivity|discriminate]|].
  destruct (JS.truthy _); split; reflexivity || discriminate.
Qed.

(** X4. [isLoading] is true until the first answer and false ever after:
    after a run it is false as soon as the run holds an answer, and
    otherwise what it was.  Neither a later call nor a later failure brings
    the spinner back. *)
Theorem isLoading_until_first_answer
    (actions : list Action) (d d' : Mounted) (os : list (option Settled)) :
  run props actions d = Some (d', os) ->
  isLoading (state d')
  = match answeredCursors actions with
    | [] => isLoading (state d)
    | _ :: _ => false
    end
  /\ (isLoading (state d) = false -> isLoading (state d') = false).
Proof using Type.
  intros Hrun.
  assert (Hfalse : forall acts d0 d1 os0,
             run props acts d0 = Some (d1, os0) ->
             isLoading (state d0) = false -> isLoading (state d1) = false).
  { induction acts as [|a rest IH]; intros d0 d1 os0 H0 Hl.
    - now injection H0 as <- <-.
    - apply run_cons in H0 as (d2 & o & os' & Hstep & Hrest & _).
      apply (IH _ _ _ Hrest). rewrite (step_state _ _ _ _ Hstep).
      destruct a as [| |i client [result|err]]; auto. }
  split; [|now apply (Hfalse actions d d' os)].
  revert d os Hrun. induction actions as [|a rest IH]; intros d os Hrun.
  - injection Hrun as <- <-. reflexivity.
  - apply run_cons in Hrun as (d1 & o & os' & Hstep & Hrest & _).
    pose proof (step_state _ _ _ _ Hstep) as Hst.
    destruct a as [| |i client [result|err]]; cbn [answeredCursors];
      try (rewrite (IH _ _ Hrest), Hst; reflexivity).
    apply (Hfalse _ _ _ _ Hrest). now rewrite Hst.
Qed.

(** X5. The original event is the first one an answer delivers: once it is
    stored, no later answer replaces it, whatever that answer carries. *)
Theorem originalEvent_first_wins
    (actions : list Action) (d d' : Mounted) (os : list (option Settled))
    (original : MatrixEvent) :
  run props actions d = Some (d', os) ->
  originalEvent (state d) = Some original ->
  originalEvent (state d') = Some original.
Proof using Type.
  intros Hrun.
  apply (run_preserves (fun d0 => originalEvent (state d0) = Some original)
           actions) with (os := os); [|exact Hrun].
  intros a d0 d1 o _ Hstep Horig.
  rewrite (step_state _ _ _ _ Hstep).
  destruct a as [| |i client [result|err]]; auto.
  rewrite resume_state_Fulfilled. simpl. now rewrite Horig.
Qed.

(** *** What the trace holds *)

Lemma filter_locallyRedact (keep : Effect -> bool) client newEvents :
  (forall e pe, keep (MarkLocallyRedacted e pe) = false) ->
  List.filter keep (locallyRedactEventsIfNeeded props client newEvents) = [].
Proof using Type.
  intros Hkeep. unfold locallyRedactEventsIfNeeded.
  destruct (getRoom client _) as [room|]; [|reflexivity].
  induction newEvents as [|e es IH]; [reflexivity|].
  simpl. rewrite List.filter_app, IH.
  destruct (List.find _ _); simpl; [now rewrite Hkeep|reflexivity].
Qed.

Lemma resume_setState client response st :
  List.filter isSetState
    (snd (fst (loadMoreEdits_resume props client response st)))
  = [SetState (fst (fst (loadMoreEdits_resume props client response st)))].
Proof using Type.
  destruct response as [result|err]; simpl; rewrite List.filter_app.
  - now rewrite filter_locallyRedact.
  - now destruct (_ && _).
Qed.

Lemma resume_logged client response st :
  List.filter isLoggerError
    (snd (fst (loadMoreEdits_resume props client response st)))
  = match response with
    | Threw err => if isLogged err then [LoggerError err] else []
    | Fulfilled _ => []
    end.
Proof using Type.
  destruct response as [result|err]; simpl; rewrite List.filter_app.
  - now rewrite filter_locallyRedact.
  - unfold isLogged. now destruct (_ && _).
Qed.

(** X6. From construction on, every request made is either still pending
    or has completed with exactly one state update: the number of requests
    in the trace is the number of pending requests plus the number of
    [setState] calls, and every pending request is one of the trace. *)
Theorem requests_pending_or_answered
    (showTwelveHourTimestamps : bool) (actions : list Action)
    (d : Mounted) (os : list (option Settled)) :
  run props actions (created showTwelveHourTimestamps) = Some (d, os) ->
  length (fetches d)
  = length (pending d) + length (List.filter isSetState (trace d))
  /\ forall request, In request (pending d) -> In request (fetches d).
Proof using Type.
  intros Hrun.
  apply (run_preserves
           (fun d0 =>
              length (fetches d0)
              = length (pending d0) + length (List.filter isSetState (trace d0))
              /\ forall request, In request (pending d0) -> In request (fetches d0))
           actions) with (os := os) (d := created showTwelveHourTimestamps);
    [|exact Hrun|split; [reflexivity|intros ? []]].
  clear. intros a d d' o _ Hstep [Hcount Hsub].
  apply step_kind in Hstep.
  destruct Hstep as [a b _ _|a b _ _|i client response Hpending].
  - auto.
  - unfold fetches in *. cbn [pending trace].
    rewrite !List.filter_app, !length_app. cbn. split; [lia|].
    intros request Hin. apply in_app_iff. apply in_app_iff in Hin as [Hin|Hin]; auto.
  - unfold fetches in *. cbn [pending trace].
    rewrite !List.filter_app, !length_app.
    rewrite DialogSpec.resume_no_fetch, resume_setState, app_nil_r.
    rewrite length_delete by exact Hpending.
    destruct Hpending as [request Hrequest].
    pose proof (lookup_lt_Some _ _ _ Hrequest). cbn. split; [lia|].
    intros request' Hin. apply Hsub.
    apply list_elem_of_In. apply list_elem_of_In in Hin.
    eapply list_elem_of_delete_inv; eauto.
Qed.

Lemma in_answeredCursors i client result actions :
  In (Completes i client (Fulfilled result)) actions ->
  In (r_nextBatch result) (answeredCursors actions).
Proof.
  induction actions as [|a rest IH]; [intros []|].
  intros [->|Hin]; [now left|].
  specialize (IH Hin).
  destruct a as [| |j c [r|e]]; cbn [answeredCursors]; auto. now right.
Qed.

(** X7. From construction on, the dialog only ever asks for the
    replacements (relation m.replace, type m.room.message) of its own event
    in its own room, and the [from] of each request is either absent or a
    [nextBatch] that an answer of the run has delivered: the dialog never
    makes up a cursor. *)
Theorem requests_use_delivered_cursors
    (showTwelveHourTimestamps : bool) (actions : list Action)
    (d : Mounted) (os : list (option Settled)) (request : Effect) :
  run props actions (created showTwelveHourTimestamps) = Some (d, os) ->
  In request (fetches d) ->
  exists from,
    request = Relations (getRoomId (mxEvent props)) (getId (mxEvent props))
                Replace RoomMessage from
    /\ (from = None \/ In from (answeredCursors actions)).
Proof using Type.
  intros Hrun Hin.
  set (known := fun from : option string =>
                  from = None \/ In from (answeredCursors actions)).
  assert (Hinv : known (nextBatch (state d))
                 /\ forall r, In r (trace d) -> isRelations r = true ->
                      exists from,
                        r = Relations (getRoomId (mxEvent props))
                              (getId (mxEvent props)) Replace RoomMessage from
                        /\ known from).
  { apply (run_preserves
             (fun d0 =>
                known (nextBatch (state d0))
                /\ forall r, In r (trace d0) -> isRelations r = true ->
                     exists from,
                       r = Relations (getRoomId (mxEvent props))
                             (getId (mxEvent props)) Replace RoomMessage from
                       /\ known from)
             actions) with (os := os) (d := created showTwelveHourTimestamps);
      [|exact Hrun|split; [now left|intros ? []]].
    clear Hrun Hin. intros a d0 d1 o Ha Hstep [Hcursor Htrace].
    apply step_kind in Hstep.
    destruct Hstep as [a b _ _|a b _ _|i client response Hpending].
    - auto.
    - cbn [state trace]. split; [exact Hcursor|].
      intros r Hr Hrel. apply in_app_iff in Hr as [Hr|[<-|[]]]; [auto|].
      exists (nextBatch (state d0)). split; [reflexivity|exact Hcursor].
    - cbn [state trace]. split.
      + destruct response as [result|err].
        * rewrite resume_state_Fulfilled. cbn [nextBatch]. right.
          eapply in_answeredCursors; eauto.
        * exact Hcursor.
      + intros r Hr Hrel. apply in_app_iff in Hr as [Hr|Hr]; [auto|].
        exfalso.
        assert (Hf : In r (List.filter isRelations
                             (snd (fst (loadMoreEdits_resume props client response
                                          (state d0))))))
          by (apply filter_In; auto).
        now rewrite DialogSpec.resume_no_fetch in Hf. }
  destruct Hinv as [_ Htrace].
  unfold fetches in Hin. apply filter_In in Hin as [Hin Hrel]. auto.
Qed.

(** X8. The errors passed to [logger.error] along a run are exactly the
    thrown values that are [MatrixError]s with a non-empty code, in the
    order thrown: a network failure (no code) is stored and shown but never
    logged, and nothing is logged on success. *)
Theorem logged_errors
    (actions : list Action) (d d' : Mounted) (os : list (option Settled)) :
  run props actions d = Some (d', os) ->
  List.filter isLoggerError (trace d')
  = List.filter isLoggerError (trace d)
    ++ map LoggerError (List.filter isLogged (thrownErrors actions)).
Proof using Type.
  revert d os. induction actions as [|a rest IH]; intros d os Hrun.
  - injection Hrun as <- <-. simpl. now rewrite app_nil_r.
  - apply run_cons in Hrun as (d1 & o & os' & Hstep & Hrest & _).
    rewrite (IH _ _ Hrest). apply step_kind in Hstep.
    destruct Hstep as [a b [->|[-> _]] _|a b [->|[-> _]] _|i client response _];
      cbn [thrownErrors trace]; try reflexivity;
      try (rewrite List.filter_app; cbn; now rewrite app_nil_r).
    rewrite List.filter_app, resume_logged, <- app_assoc. f_equal.
    destruct response as [result|err]; [reflexivity|].
    cbn [thrownErrors List.filter]. now destruct (isLogged err).
Qed.

Lemma step_Completes_inv i client response d d' o :
  step props (Completes i client response) d = Some (d', o) ->
  is_Some (pending d !! i)
  /\ d' = {| state := fst (fst (loadMoreEdits_resume props client response (state d)));
             pending := delete i (pending d);
             trace := trace d
                      ++ snd (fst (loadMoreEdits_resume props client response
                                     (state d))) |}.
Proof using Type.
  cbn [step]. intros H. destruct (pending d !! i) as [req|] eqn:Hreq.
  - rewrite DialogSpec.completes_Some in H by (rewrite Hreq; eauto).
    injection H as <- <-. split; [eauto|reflexivity].
  - unfold completes in H. now rewrite Hreq in H.
Qed.

(** X9. Once an error is stored the view makes no further request: every
    action it can still make is the completion of a request that was already
    pending, so the trace gains no request and the run is at most as long as
    the number of requests pending when the error was stored. *)
Theorem no_request_after_error
    (actions : list Action) (d d' : Mounted) (os : list (option Settled)) :
  is_Some (error (state d)) ->
  allOffered props actions d = true ->
  run props actions d = Some (d', os) ->
  fetches d' = fetches d
  /\ forallb isCompletes actions = true
  /\ length (pending d') + length actions = length (pending d).
Proof using Type.
  revert d os. induction actions as [|a rest IH]; intros d os Herr Hoff Hrun.
  - injection Hrun as <- <-. simpl. auto.
  - apply run_cons in Hrun as (d1 & o & os' & Hstep & Hrest & _).
    cbn [allOffered] in Hoff. rewrite Hstep in Hoff.
    apply andb_true_iff in Hoff as [Ha Hoff].
    destruct a as [|b|i client response]; [discriminate| |].
    { apply DialogSpec.offered_fill_not_loading in Ha as [_ Hnone].
      destruct Herr as [e He]. congruence. }
    apply step_Completes_inv in Hstep as [Hpending ->].
    assert (Herr1 : is_Some (error (fst (fst (loadMoreEdits_resume props client
                                                response (state d)))))).
    { destruct response as [result|err].
      - rewrite resume_state_Fulfilled. exact Herr.
      - rewrite resume_state_Threw. cbn. eauto. }
    match type of Hrest with
    | run _ _ ?d1 = _ =>
        destruct (IH d1 os' Herr1 Hoff Hrest) as (Hf & Hall & Hlen)
    end.
    rewrite Hf. unfold fetches. cbn [trace pending] in *.
    rewrite List.filter_app, DialogSpec.resume_no_fetch, app_nil_r.
    split; [reflexivity|]. split; [exact Hall|].
    rewrite length_delete in Hlen by exact Hpending.
    destruct Hpending as [request Hrequest].
    pose proof (lookup_lt_Some _ _ _ Hrequest). cbn [length]. lia.
Qed.

(** X10. The calls of [markLocallyRedacted] follow the batch: the events
    marked are, in batch order and once per occurrence, the events of the
    batch for which the room has a pending redaction, so that there are at
    most as many calls as events in the batch. *)
Theorem marks_follow_batch
    (client : MatrixClient) (room : Room) (newEvents : list MatrixEvent) :
  getRoom client (getRoomId (mxEvent props)) = Some room ->
  omap markedEvent (locallyRedactEventsIfNeeded props client newEvents)
  = List.filter (fun e => existsb (redacts e) (getPendingEvents room)) newEvents
  /\ length (locallyRedactEventsIfNeeded props client newEvents)
     <= length newEvents.
Proof using Type.
  intros Hroom. unfold locallyRedactEventsIfNeeded. rewrite Hroom.
  induction newEvents as [|e es [IHmarks IHlen]]; [split; reflexivity|].
  cbn [flat_map List.filter].
  rewrite omap_app, length_app, IHmarks.
  destruct (List.find (redacts e) (getPendingEvents room)) as [pe|] eqn:Hfind.
  - apply find_some in Hfind as [Hin Hred].
    assert (Hex : existsb (redacts e) (getPendingEvents room) = true)
      by (apply existsb_exists; eauto).
    rewrite Hex. cbn. split; [reflexivity|lia].
  - assert (Hex : existsb (redacts e) (getPendingEvents room) = false).
    { destruct (existsb _ _) eqn:Hex; [|reflexivity].
      apply existsb_exists in Hex as (pe & Hin & Hred).
      pose proof (find_none _ _ Hfind pe Hin). congruence. }
    rewrite Hex. cbn. split; [reflexivity|lia].
Qed.

(** *** What is shown *)

Lemma run_error actions d d' os :
  run props actions d = Some (d', os) ->
  error (state d') = List.last (map Some (thrownErrors actions)) (error (state d)).
Proof using Type.
  revert d os. induction actions as [|a rest IH]; intros d os Hrun.
  - injection Hrun as <- <-. reflexivity.
  - apply run_cons in Hrun as (d1 & o & os' & Hstep & Hrest & _).
    rewrite (IH _ _ Hrest), (step_state _ _ _ _ Hstep).
    destruct a as [| |i client [result|err]]; try reflexivity.
    cbn [thrownErrors map]. now rewrite last_cons.
Qed.

Lemma run_isLoading actions d d' os :
  run props actions d = Some (d', os) ->
  isLoading (state d')
  = match answeredCursors actions with
    | [] => isLoading (state d)
    | _ :: _ => false
    end.
Proof using Type.
  revert d os. induction actions as [|a rest IH]; intros d os Hrun.
  - injection Hrun as <- <-. reflexivity.
  - apply run_cons in Hrun as (d1 & o & os' & Hstep & Hrest & _).
    rewrite (IH _ _ Hrest), (step_state _ _ _ _ Hstep).
    destruct a as [| |i client [result|err]]; cbn [answeredCursors];
      try reflexivity.
    now destruct (answeredCursors rest).
Qed.

Lemma last_thrown (errs : list MatrixError) :
  (errs = [] /\ List.last (map Some errs) None = None)
  \/ exists err, In err errs /\ List.last (map Some errs) None = Some err.
Proof.
  destruct errs as [|e errs]; [now left|]. right.
  cbn [map]. rewrite last_cons.
  revert e. induction errs as [|e' errs IH]; intros e.
  - exists e. split; [now left|reflexivity].
  - cbn [map]. rewrite last_cons. destruct (IH e') as (err & Hin & Hlast).
    exists err. split; [|exact Hlast]. destruct Hin as [<-|Hin]; simpl; auto.
Qed.

(** X18. What the dialog shows after a run that starts at construction: the
    spinner exactly as long as no request has completed, the scroll panel
    exactly when at least one answer has arrived and no request has failed,
    and otherwise, as soon as one request has failed, an error message. *)
Theorem shown_after_run
    (showTwelveHourTimestamps : bool) (actions : list Action)
    (d : Mounted) (os : list (option Settled)) :
  run props actions (created showTwelveHourTimestamps) = Some (d, os) ->
  (render (state d) = SpinnerContent <->
     answeredCursors actions = [] /\ thrownErrors actions = [])
  /\ (render (state d) = ScrollPanelContent <->
        answeredCursors actions <> [] /\ thrownErrors actions = [])
  /\ (thrownErrors actions <> [] ->
        render (state d) = FeatureUnsupported
        \/ render (state d) = SomethingWentWrong
        \/ render (state d) = CannotReachHomeserver).
Proof using Type.
  intros Hrun.
  pose proof (run_error _ _ _ _ Hrun) as Herr.
  pose proof (run_isLoading _ _ _ _ Hrun) as Hload.
  cbn [created state constructor error isLoading] in Herr, Hload.
  unfold render. rewrite Herr, Hload.
  destruct (last_thrown (thrownErrors actions)) as [[-> ->]|(err & Hin & ->)].
  - destruct (answeredCursors actions); repeat split;
      try discriminate; try tauto; try (intros [? ?]; congruence).
  - assert (Hne : thrownErrors actions <> []) by (intros H; now rewrite H in Hin).
    destruct (bool_decide _); [|destruct (JS.truthy _)];
      repeat split; try discriminate; try tauto; auto.
Qed.

End Runs.

(** *** The statements on sample data *)

Lemma shown_after_run_witness :
  render (state Samples.afterTwoPages) = ScrollPanelContent
  /\ (render (state (MoreSamples.endOf MoreSamples.failingRun (created false)))
      = FeatureUnsupported
      \/ render (state (MoreSamples.endOf MoreSamples.failingRun (created false)))
         = SomethingWentWrong
      \/ render (state (MoreSamples.endOf MoreSamples.failingRun (created false)))
         = CannotReachHomeserver).
Proof.
  destruct (shown_after_run Samples.props false Samples.twoPages
              Samples.afterTwoPages Samples.twoPagesReports eq_refl)
    as (_ & Hpanel & _).
  destruct (shown_after_run Samples.props false MoreSamples.failingRun
              (MoreSamples.endOf MoreSamples.failingRun (created false))
              (MoreSamples.reportsOf MoreSamples.failingRun (created false))
              eq_refl)
    as (_ & _ & Hfailed).
  split.
  - apply Hpanel. split; [cbn; discriminate|reflexivity].
  - apply Hfailed. cbn. discriminate.
Defined.

Lemma events_are_answered_batches_witness :
  events (state Samples.afterTwoPages) = [] ++ [Samples.edit2; Samples.edit1].
Proof.
  apply (events_are_answered_batches Samples.props Samples.twoPages
           (created false) Samples.afterTwoPages Samples.twoPagesReports).
  reflexivity.
Defined.

Lemma cursor_is_last_answer_witness :
  nextBatch (state Samples.afterTwoPages)
  = List.last (answeredCursors Samples.twoPages) None.
Proof.
  apply (cursor_is_last_answer Samples.props Samples.twoPages
           (created false) Samples.afterTwoPages Samples.twoPagesReports).
  reflexivity.
Defined.

Lemma error_is_last_failure_witness :
  is_Some (error (state (MoreSamples.endOf MoreSamples.lateAnswer
                           MoreSamples.failedOnce)))
  /\ rendersScrollPanel (state (MoreSamples.endOf MoreSamples.lateAnswer
                                  MoreSamples.failedOnce)) = false.
Proof.
  destruct (error_is_last_failure Samples.props MoreSamples.lateAnswer
              MoreSamples.failedOnce
              (MoreSamples.endOf MoreSamples.lateAnswer MoreSamples.failedOnce)
              (MoreSamples.reportsOf MoreSamples.lateAnswer MoreSamples.failedOnce)
              eq_refl) as [_ Hkept].
  destruct Hkept as (Hsome & Hpanel & _).
  - exists Samples.unrecognized. reflexivity.
  - split; assumption.
Defined.

Lemma isLoading_until_first_answer_witness :
  isLoading (state (MoreSamples.endOf MoreSamples.failsLater MoreSamples.firstShown))
  = false.
Proof.
  destruct (isLoading_until_first_answer Samples.props MoreSamples.failsLater
              MoreSamples.firstShown
              (MoreSamples.endOf MoreSamples.failsLater MoreSamples.firstShown)
              (MoreSamples.reportsOf MoreSamples.failsLater MoreSamples.firstShown)
              eq_refl) as [_ Hstays].
  apply Hstays. reflexivity.
Defined.

Lemma originalEvent_first_wins_witness :
  originalEvent
    (state (MoreSamples.endOf MoreSamples.otherOriginal
              MoreSamples.originalDelivered))
  = Some Samples.baseEvent.
Proof.
  apply (originalEvent_first_wins Samples.props MoreSamples.otherOriginal
           MoreSamples.originalDelivered
           (MoreSamples.endOf MoreSamples.otherOriginal
              MoreSamples.originalDelivered)
           (MoreSamples.reportsOf MoreSamples.otherOriginal
              MoreSamples.originalDelivered));
    reflexivity.
Defined.

Lemma requests_pending_or_answered_witness :
  length (fetches Samples.twoPending)
  = length (pending Samples.twoPending)
    + length (List.filter isSetState (trace Samples.twoPending))
  /\ In (requestFrom Samples.props
           (state MoreSamples.firstShown))
        (fetches Samples.twoPending).
Proof.
  destruct (requests_pending_or_answered Samples.props false
              (componentDidMount :: Samples.askedTwice) Samples.twoPending
              (MoreSamples.reportsOf (componentDidMount :: Samples.askedTwice)
                 (created false))
              eq_refl) as [Hcount Hpending].
  split; [exact Hcount|].
  apply Hpending. left. reflexivity.
Defined.

Lemma requests_use_delivered_cursors_witness :
  exists from,
    requestFrom Samples.props (state MoreSamples.firstShown)
    = Relations (getRoomId (mxEvent Samples.props)) (getId (mxEvent Samples.props))
        Replace RoomMessage from
    /\ (from = None
        \/ In from (answeredCursors (componentDidMount :: Samples.askedTwice))).
Proof.
  apply (requests_use_delivered_cursors Samples.props false
           (componentDidMount :: Samples.askedTwice) Samples.twoPending
           (MoreSamples.reportsOf (componentDidMount :: Samples.askedTwice)
              (created false))).
  - reflexivity.
  - right. left. reflexivity.
Defined.

Lemma logged_errors_witness :
  List.filter isLoggerError
    (trace (MoreSamples.endOf MoreSamples.failingRun (created false)))
  = [] ++ [LoggerError Samples.unrecognized].
Proof.
  apply (logged_errors Samples.props MoreSamples.failingRun (created false)
           (MoreSamples.endOf MoreSamples.failingRun (created false))
           (MoreSamples.reportsOf MoreSamples.failingRun (created false))).
  reflexivity.
Defined.

Lemma no_request_after_error_witness :
  fetches (MoreSamples.endOf MoreSamples.lateAnswer MoreSamples.failedOnce)
  = fetches MoreSamples.failedOnce
  /\ forallb isCompletes MoreSamples.lateAnswer = true
  /\ length (pending (MoreSamples.endOf MoreSamples.lateAnswer
                        MoreSamples.failedOnce))
     + length MoreSamples.lateAnswer
     = length (pending MoreSamples.failedOnce).
Proof.
  apply (no_request_after_error Samples.props MoreSamples.lateAnswer
           MoreSamples.failedOnce
           (MoreSamples.endOf MoreSamples.lateAnswer MoreSamples.failedOnce)
           (MoreSamples.reportsOf MoreSamples.lateAnswer MoreSamples.failedOnce)).
  - exists Samples.unrecognized. reflexivity.
  - reflexivity.
  - reflexivity.
Defined.

Lemma marks_follow_batch_witness :
  omap markedEvent
    (locallyRedactEventsIfNeeded Samples.props Samples.client
       [Samples.edit2; Samples.edit1; Samples.edit1])
  = List.filter
      (fun e => existsb (redacts e) (getPendingEvents Samples.room))
      [Samples.edit2; Samples.edit1; Samples.edit1]
  /\ length (locallyRedactEventsIfNeeded Samples.props Samples.client
               [Samples.edit2; Samples.edit1; Samples.edit1]) <= 3.
Proof.
  apply (marks_follow_batch Samples.props Samples.client Samples.room
           [Samples.edit2; Samples.edit1; Samples.edit1]).
  reflexivity.
Defined.

End DialogRunsSpec.


(** ** The callers of the dialog *)

Module DialogCallersSpec.

Import Dialog DialogCallers.

Section Component.

Variable props : IProps.






End Component.

(** *** The statement on sample data *)


End DialogCallersSpec.

(** ** The list of edits *)

Module DialogViewSpec.

Import Dialog DialogView.

Section RenderEdits.

Variable Date : Type.
Variable getDate : MatrixEvent -> option Date.
Variable getTs : MatrixEvent -> Z.
Variable wantsDateSeparator : option Date -> option Date -> bool.
Variable props : IProps.

Local Abbreviation body :=
  (renderEdits_body Date getDate getTs wantsDateSeparator props).
Local Abbreviation pushed :=
  (DialogView.pushed Date getDate getTs wantsDateSeparator props).
Local Abbreviation from :=
  (renderEdits_from Date getDate getTs wantsDateSeparator props).
Local Abbreviation renderEdits :=
  (DialogView.renderEdits Date getDate getTs wantsDateSeparator props).
Local Abbreviation messageFor := (DialogView.messageFor props).

Lemma body_eq st all nodes lastEvent i e :
  body st all (nodes, lastEvent) (i, e)
  = (nodes ++ pushed st all lastEvent i e, Some e).
Proof using Type.
  unfold renderEdits_body, DialogView.pushed, DialogView.messageFor.
  destruct (match lastEvent with None => true | Some _ => _ end);
    now rewrite <- ?app_assoc.
Qed.

Lemma fold_nodes st all items nodes lastEvent :
  fold_left (body st all) items (nodes, lastEvent)
  = (nodes ++ fst (fold_left (body st all) items ([], lastEvent)),
     snd (fold_left (body st all) items ([], lastEvent))).
Proof using Type.
  revert nodes lastEvent.
  induction items as [|[i e] items IH]; intros nodes lastEvent.
  - simpl. now rewrite app_nil_r.
  - cbn [fold_left]. rewrite !body_eq.
    rewrite (IH (nodes ++ _)), (IH ([] ++ _)). cbn [fst snd app].
    now rewrite app_assoc.
Qed.

Lemma items_cons {A} k (e : A) rest :
  imap (fun i x => (k + i, x)) (e :: rest)
  = (k, e) :: imap (fun i x => (S k + i, x)) rest.
Proof.
  rewrite imap_cons. f_equal; [f_equal; lia|].
  apply imap_ext. intros i x _. simpl. f_equal. lia.
Qed.

(** The loop, one iteration at a time. *)
Lemma from_nil st all k lastEvent : from st all k lastEvent [] = [].
Proof using Type. reflexivity. Qed.

Lemma from_cons st all k lastEvent e rest :
  from st all k lastEvent (e :: rest)
  = pushed st all lastEvent k e ++ from st all (S k) (Some e) rest.
Proof using Type.
  unfold renderEdits_from. rewrite items_cons. cbn [fold_left].
  rewrite body_eq, fold_nodes. reflexivity.
Qed.

Lemma renderEdits_from_start st :
  renderEdits st = from st (allEvents st) 0 None (allEvents st).
Proof using Type. reflexivity. Qed.

Lemma pushed_cases st all lastEvent i e :
  pushed st all lastEvent i e
  = [DateSeparatorItem (getRoomId e) (getTs e); messageFor st all i e]
  \/ pushed st all lastEvent i e = [messageFor st all i e].
Proof using Type.
  unfold DialogView.pushed.
  destruct (match lastEvent with None => true | Some _ => _ end); auto.
Qed.

Lemma from_messages st all k lastEvent rest :
  omap messageEvent (from st all k lastEvent rest) = rest.
Proof using Type.
  revert k lastEvent. induction rest as [|e rest IH]; intros k lastEvent.
  - reflexivity.
  - rewrite from_cons, omap_app, IH.
    destruct (pushed_cases st all lastEvent k e) as [-> | ->]; reflexivity.
Qed.

Lemma from_filter st all k lastEvent rest :
  List.filter isMessage (from st all k lastEvent rest)
  = imap (fun i e => messageFor st all (k + i) e) rest.
Proof using Type.
  revert k lastEvent. induction rest as [|e rest IH]; intros k lastEvent.
  - reflexivity.
  - rewrite from_cons, List.filter_app, IH, imap_cons.
    replace (k + 0) with k by lia.
    assert (Htail : imap ((fun i e0 => messageFor st all (k + i) e0) ∘ S) rest
                    = imap (fun i e0 => messageFor st all (S k + i) e0) rest).
    { apply imap_ext. intros i x _. simpl. f_equal. lia. }
    rewrite Htail.
    destruct (pushed_cases st all lastEvent k e) as [-> | ->]; reflexivity.
Qed.

Lemma from_length st all k lastEvent rest :
  length rest <= length (from st all k lastEvent rest) <= 2 * length rest.
Proof using Type.
  revert k lastEvent. induction rest as [|e rest IH]; intros k lastEvent.
  - simpl. lia.
  - rewrite from_cons, length_app. specialize (IH (S k) (Some e)).
    destruct (pushed_cases st all lastEvent k e) as [-> | ->]; simpl; lia.
Qed.

Lemma from_separator st all k lastEvent rest j roomId ts :
  from st all k lastEvent rest !! j = Some (DateSeparatorItem roomId ts) ->
  exists i e,
    rest !! i = Some e
    /\ from st all k lastEvent rest !! S j = Some (messageFor st all (k + i) e)
    /\ roomId = getRoomId e /\ ts = getTs e.
Proof using Type.
  revert k lastEvent j. induction rest as [|e rest IH]; intros k lastEvent j.
  - rewrite from_nil. intros H. now rewrite lookup_nil in H.
  - rewrite from_cons.
    assert (Hshift : forall j',
              from st all (S k) (Some e) rest !! j'
              = Some (DateSeparatorItem roomId ts) ->
              exists i e0,
                (e :: rest) !! i = Some e0
                /\ from st all (S k) (Some e) rest !! S j'
                   = Some (messageFor st all (k + i) e0)
                /\ roomId = getRoomId e0 /\ ts = getTs e0).
    { intros j' Hj'. destruct (IH _ _ _ Hj') as (i & e0 & Hi & Hnext & Hr & Ht).
      exists (S i), e0. repeat split; auto.
      rewrite Hnext. do 2 f_equal. lia. }
    destruct (pushed_cases st all lastEvent k e) as [-> | ->].
    + destruct j as [|[|j]]; cbn.
      * intros [= <- <-]. exists 0, e. repeat split.
        do 2 f_equal. lia.
      * discriminate.
      * apply Hshift.
    + destruct j as [|j]; cbn; [discriminate|apply Hshift].
Qed.

(** X11. The messages [renderEdits] lists are the accumulated edits in
    their order, each exactly once, followed by the original event when it
    is known and the cursor is exhausted; while a further page remains, or
    while no original event has been delivered, only the edits are listed. *)
Theorem renderEdits_lists_all_events (st : IState) :
  omap messageEvent (renderEdits st) = allEvents st
  /\ (forall original,
        originalEvent st = Some original ->
        JS.truthy (nextBatch st) = false ->
        omap messageEvent (renderEdits st) = events st ++ [original])
  /\ (originalEvent st = None \/ JS.truthy (nextBatch st) = true ->
        omap messageEvent (renderEdits st) = events st).
Proof using Type.
  rewrite renderEdits_from_start, from_messages.
  split; [reflexivity|]. unfold allEvents. split.
  - intros original -> ->. reflexivity.
  - intros [-> | ->]; [reflexivity|]. now destruct (originalEvent st).
Qed.

(** X12. Each message is given the next event of the list as its previous
    edit, except the message of the base event (the one with the id of the
    dialog's event), which is given none; the last message of the list has
    no previous edit either, the index after it being out of range. *)
Theorem renderEdits_previous_edit (st : IState) (i : nat) (e : MatrixEvent) :
  allEvents st !! i = Some e ->
  exists previousEdit,
    List.filter isMessage (renderEdits st) !! i
    = Some (EditHistoryMessage (getId e) previousEdit
              (bool_decide (getId e = getId (mxEvent props))) e
              (isTwelveHour st))
    /\ (getId e = getId (mxEvent props) -> previousEdit = None)
    /\ (getId e <> getId (mxEvent props) ->
          previousEdit = allEvents st !! (i + 1))
    /\ (i + 1 = length (allEvents st) -> previousEdit = None).
Proof using Type.
  intros Hi. rewrite renderEdits_from_start, from_filter.
  rewrite list_lookup_imap, Hi. cbn [fmap option_fmap option_map].
  unfold DialogView.messageFor. eexists. split; [reflexivity|].
  split; [|split].
  - intros Hbase. now rewrite bool_decide_eq_true_2.
  - intros Hother. now rewrite bool_decide_eq_false_2.
  - intros Hlast. destruct (negb _); [|reflexivity].
    apply lookup_ge_None. lia.
Qed.

(** X13. The list is empty exactly when there is no event to show;
    otherwise it starts with a date separator.  Every date separator is
    immediately followed by the message of the event whose room and
    timestamp it carries, so two separators never follow each other, and
    the list holds at least one and at most two elements per event. *)
Theorem renderEdits_separators (st : IState) :
  (renderEdits st = [] <-> allEvents st = [])
  /\ (forall e rest,
        allEvents st = e :: rest ->
        exists nodes,
          renderEdits st
          = DateSeparatorItem (getRoomId e) (getTs e)
              :: messageFor st (allEvents st) 0 e :: nodes)
  /\ (forall j roomId ts,
        renderEdits st !! j = Some (DateSeparatorItem roomId ts) ->
        exists i e,
          allEvents st !! i = Some e
          /\ renderEdits st !! S j = Some (messageFor st (allEvents st) i e)
          /\ roomId = getRoomId e /\ ts = getTs e)
  /\ length (allEvents st) <= length (renderEdits st) <= 2 * length (allEvents st).
Proof using Type.
  rewrite renderEdits_from_start.
  split; [|split; [|split]].
  - pose proof (from_length st (allEvents st) 0 None (allEvents st)) as Hlen.
    split; intros H.
    + rewrite H in Hlen. simpl in Hlen.
      destruct (allEvents st); [reflexivity|simpl in Hlen; lia].
    + rewrite H. reflexivity.
  - intros e rest Hall.
    exists (from st (allEvents st) 1 (Some e) rest).
    assert (Hgen : forall l, l = e :: rest ->
              from st (allEvents st) 0 None l
              = DateSeparatorItem (getRoomId e) (getTs e)
                  :: messageFor st (allEvents st) 0 e
                  :: from st (allEvents st) 1 (Some e) rest)
      by (intros l ->; now rewrite from_cons).
    exact (Hgen _ Hall).
  - intros j roomId ts Hj.
    destruct (from_separator _ _ _ _ _ _ _ _ Hj) as (i & e & Hi & Hnext & Hr & Ht).
    exists i, e. auto.
  - apply from_length.
Qed.

End RenderEdits.

(** *** The statements on sample data *)

Lemma renderEdits_lists_all_events_witness :
  omap messageEvent
    (DialogView.renderEdits nat MoreSamples.dayOf MoreSamples.tsOf
       MoreSamples.differentDays Samples.props MoreSamples.shown)
  = [Samples.edit2; Samples.edit1] ++ [Samples.baseEvent]
  /\ omap messageEvent
       (DialogView.renderEdits nat MoreSamples.dayOf MoreSamples.tsOf
          MoreSamples.differentDays Samples.props
          (state MoreSamples.firstShown))
     = [Samples.edit2].
Proof.
  destruct (renderEdits_lists_all_events nat MoreSamples.dayOf MoreSamples.tsOf
              MoreSamples.differentDays Samples.props MoreSamples.shown)
    as (_ & Hlast & _).
  destruct (renderEdits_lists_all_events nat MoreSamples.dayOf MoreSamples.tsOf
              MoreSamples.differentDays Samples.props
              (state MoreSamples.firstShown))
    as (_ & _ & Hmore).
  split.
  - apply (Hlast Samples.baseEvent); reflexivity.
  - apply Hmore. left. reflexivity.
Defined.

Lemma renderEdits_previous_edit_witness :
  exists previousEdit,
    List.filter isMessage
      (DialogView.renderEdits nat MoreSamples.dayOf MoreSamples.tsOf
         MoreSamples.differentDays Samples.props MoreSamples.shown) !! 1
    = Some (EditHistoryMessage (getId Samples.edit1) previousEdit
              (bool_decide (getId Samples.edit1 = getId (mxEvent Samples.props)))
              Samples.edit1 (isTwelveHour MoreSamples.shown))
    /\ previousEdit = Some Samples.baseEvent.
Proof.
  destruct (renderEdits_previous_edit nat MoreSamples.dayOf MoreSamples.tsOf
              MoreSamples.differentDays Samples.props MoreSamples.shown
              1 Samples.edit1 eq_refl)
    as (previousEdit & Hmessage & _ & Hnext & _).
  exists previousEdit. split; [exact Hmessage|].
  apply Hnext. discriminate.
Defined.

Lemma renderEdits_separators_witness :
  (exists nodes,
     DialogView.renderEdits nat MoreSamples.dayOf MoreSamples.tsOf
       MoreSamples.differentDays Samples.props MoreSamples.shown
     = DateSeparatorItem (getRoomId Samples.edit2) (MoreSamples.tsOf Samples.edit2)
         :: DialogView.messageFor Samples.props MoreSamples.shown
              (allEvents MoreSamples.shown) 0 Samples.edit2
         :: nodes)
  /\ exists i e,
       allEvents MoreSamples.shown !! i = Some e
       /\ DialogView.renderEdits nat MoreSamples.dayOf MoreSamples.tsOf
            MoreSamples.differentDays Samples.props MoreSamples.shown !! 4
          = Some (DialogView.messageFor Samples.props MoreSamples.shown
                    (allEvents MoreSamples.shown) i e)
       /\ getRoomId Samples.baseEvent = getRoomId e
       /\ MoreSamples.tsOf Samples.baseEvent = MoreSamples.tsOf e.
Proof.
  destruct (renderEdits_separators nat MoreSamples.dayOf MoreSamples.tsOf
              MoreSamples.differentDays Samples.props MoreSamples.shown)
    as (_ & Hhead & Hfollowed & _).
  split.
  - apply (Hhead Samples.edit2 [Samples.edit1; Samples.baseEvent]). reflexivity.
  - apply (Hfollowed 3). reflexivity.
Defined.

End DialogViewSpec.


(** ** The plain-text composer listeners, continued *)

Module ComposerMoreSpec.

Import Composer EditorMarkup StringFacts.

(** *** The three replacements on the editor's markup *)

Lemma tagFree_cons c line :
  tagFree (String c line) = true -> c <> lt /\ tagFree line = true.
Proof.
  unfold tagFree. cbn [JS.contains_char]. rewrite negb_true_iff, orb_false_iff.
  intros [Hc ->]. split; [|reflexivity]. intros ->.
  now rewrite Ascii.eqb_refl in Hc.
Qed.

Lemma tagFree_contains line :
  tagFree line = true -> JS.contains_char lt line = false.
Proof. unfold tagFree. now rewrite negb_true_iff. Qed.

(** A non-empty paragraph holds no [<div><br></div>]. *)
Lemma breaks_skip_paragraph c line rest :
  tagFree (String c line) = true ->
  JS.replace_all "<div><br></div>" JS.newline
    ("<div>" +:+ String c line +:+ "</div>" +:+ rest)
  = ("<div>" +:+ String c line +:+ "</div>"
      +:+ JS.replace_all "<div><br></div>" JS.newline rest)%string.
Proof.
  intros Hfree. destruct (tagFree_cons _ _ Hfree) as [Hc Hline].
  apply tagFree_contains in Hfree.
  change ("<div>" +:+ String c line +:+ "</div>" +:+ rest)%string
    with (String lt (("div>" +:+ String c line) +:+ String lt ("/div>" +:+ rest)))%string.
  change "<div><br></div>" with (String lt "div><br></div>").
  rewrite replace_all_skips.
  - rewrite replace_all_skips; [reflexivity| |reflexivity].
    destruct (String.prefix _ _) eqn:Hpre; [|reflexivity].
    apply JSFacts.prefix_cons in Hpre as [_ Hpre].
    apply JSFacts.prefix_cons in Hpre as [Hpre _]. discriminate.
  - destruct (String.prefix _ _) eqn:Hpre; [|reflexivity].
    do 5 (apply JSFacts.prefix_cons in Hpre as [_ Hpre]).
    apply JSFacts.prefix_cons in Hpre as [Hpre _]. now subst c.
  - rewrite contains_char_app, Hfree. reflexivity.
Qed.

Lemma breaks_become_line_feeds lines :
  forallb tagFree lines = true ->
  JS.replace_all "<div><br></div>" JS.newline (linesWith paragraph lines)
  = linesWith withoutBreak lines.
Proof.
  induction lines as [|line lines IH]; [reflexivity|].
  cbn [forallb linesWith]. intros [Hline Hlines]%andb_true_iff.
  specialize (IH Hlines). destruct line as [|c line].
  - cbn [paragraph withoutBreak].
    rewrite replace_all_at_pattern by discriminate. now rewrite IH.
  - cbn [paragraph withoutBreak]. rewrite !append_assoc.
    rewrite breaks_skip_paragraph by exact Hline. now rewrite IH.
Qed.

Lemma closing_tag_skipped pat rest :
  String.prefix (String lt pat) (String lt ("/div>" +:+ rest)) = false ->
  JS.replace_all (String lt pat) JS.newline ("</div>" +:+ rest)
  = ("</div>" +:+ JS.replace_all (String lt pat) JS.newline rest)%string.
Proof.
  intros Hpre.
  change ("</div>" +:+ rest)%string with (String lt ("/div>" +:+ rest)).
  now rewrite replace_all_skips.
Qed.

Lemma openings_become_line_feeds lines :
  forallb tagFree lines = true ->
  JS.replace_all "<div>" JS.newline (linesWith withoutBreak lines)
  = linesWith withoutOpening lines.
Proof.
  induction lines as [|line lines IH]; [reflexivity|].
  cbn [forallb linesWith]. intros [Hline Hlines]%andb_true_iff.
  specialize (IH Hlines). destruct line as [|c line].
  - cbn [withoutBreak withoutOpening].
    change "<div>" with (String lt "div>").
    rewrite replace_all_copies by reflexivity.
    change (String lt "div>") with "<div>". now rewrite IH.
  - cbn [withoutBreak withoutOpening]. rewrite !append_assoc.
    rewrite replace_all_at_pattern by discriminate.
    change "<div>" with (String lt "div>").
    rewrite replace_all_copies by (now apply tagFree_contains).
    rewrite closing_tag_skipped;
      [change (String lt "div>") with "<div>"; now rewrite IH|].
    destruct (String.prefix _ _) eqn:Hpre; [|reflexivity].
    apply JSFacts.prefix_cons in Hpre as [_ Hpre].
    apply JSFacts.prefix_cons in Hpre as [Hpre _]. discriminate.
Qed.

Lemma closings_removed lines :
  forallb tagFree lines = true ->
  JS.replace_all "</div>" EmptyString (linesWith withoutOpening lines)
  = linesWith plainLine lines.
Proof.
  induction lines as [|line lines IH]; [reflexivity|].
  cbn [forallb linesWith]. intros [Hline Hlines]%andb_true_iff.
  specialize (IH Hlines). unfold plainLine at 1. destruct line as [|c line].
  - cbn [withoutOpening].
    change "</div>" with (String lt "/div>").
    rewrite replace_all_copies by reflexivity.
    change (String lt "/div>") with "</div>".
    rewrite IH, append_assoc. reflexivity.
  - cbn [withoutOpening]. rewrite !append_assoc.
    rewrite <- (append_assoc JS.newline).
    change "</div>" with (String lt "/div>") at 1.
    rewrite replace_all_copies
      by (rewrite contains_char_app; now rewrite (tagFree_contains _ Hline)).
    change (String lt "/div>") with "</div>".
    rewrite replace_all_at_pattern by discriminate.
    rewrite IH, append_assoc. reflexivity.
Qed.

(** *** Lengths *)

Lemma length_append (a b : string) :
  String.length (a +:+ b) = String.length a + String.length b.
Proof.
  induction a as [|x a IH]; [reflexivity|].
  rewrite append_cons. cbn [String.length]. now rewrite IH.
Qed.

Lemma length_drop_prefix pat s :
  String.prefix pat s = true ->
  String.length (JS.drop (String.length pat) s) + String.length pat
  = String.length s.
Proof.
  revert s. induction pat as [|x pat IH]; intros s Hpre.
  - cbn. lia.
  - destruct s as [|c s]; [discriminate|].
    apply JSFacts.prefix_cons in Hpre as [_ Hpre].
    cbn [String.length JS.drop]. specialize (IH s Hpre). lia.
Qed.

(** A replacement that is not longer than its pattern does not lengthen
    the text. *)
Lemma replace_all_length pat rep s :
  pat <> EmptyString ->
  String.length rep <= String.length pat ->
  String.length (JS.replace_all pat rep s) <= String.length s.
Proof.
  intros Hpat Hrep.
  remember (String.length s) as n eqn:Hn.
  assert (Hle : String.length s <= n) by lia.
  rewrite Hn. clear Hn.
  revert s Hle. induction n as [|n IH]; intros s Hle.
  - destruct s; [cbn; lia|cbn in Hle; lia].
  - destruct s as [|c s]; [cbn; lia|].
    cbn [String.length] in Hle.
    destruct (String.prefix pat (String c s)) eqn:Hmatch.
    + rewrite (JSFacts.replace_all_match _ _ _ Hpat Hmatch), length_append.
      pose proof (length_drop_prefix _ _ Hmatch) as Hdrop.
      assert (Hpos : 1 <= String.length pat)
        by (destruct pat; [contradiction|cbn; lia]).
      cbn [String.length] in Hdrop.
      specialize (IH (JS.drop (String.length pat) (String c s))).
      cbn [String.length]. lia.
    + rewrite JSFacts.replace_all_copy by exact Hmatch.
      cbn [String.length]. specialize (IH s). lia.
Qed.

Section Listeners.

Variable textareaValue : string -> string.
Variable Key_ENTER : string.
Variable IS_MAC : bool.
Variable ctrlEnterToSend : bool.
Variable handleEventWithAutocomplete : KeyboardEvent -> bool.
Variable onChange_given : bool.
Variable onSend_given : bool.

Local Abbreviation send := (Composer.send onSend_given).
Local Abbreviation setText := (Composer.setText onChange_given).
Local Abbreviation amendInnerHtml := (Composer.amendInnerHtml textareaValue).
Local Abbreviation onInput :=
  (Composer.onInput textareaValue ctrlEnterToSend onChange_given).
Local Abbreviation onKeyDown :=
  (Composer.onKeyDown Key_ENTER IS_MAC ctrlEnterToSend
     handleEventWithAutocomplete onSend_given).

(** X14. When the decoded text is the editor's markup of a first line
    followed by paragraphs, none of them holding the character that opens a
    tag, [amendInnerHtml] returns the lines joined by line feeds: an empty
    paragraph gives an empty line, and no tag is left.  In particular a
    text without any tag is returned as decoded. *)
Theorem amendInnerHtml_joins_lines
    (text first : string) (lines : list string) :
  decodeHtml textareaValue text = editorHtml first lines ->
  tagFree first = true ->
  forallb tagFree lines = true ->
  amendInnerHtml text = plainText first lines
  /\ (lines = [] -> amendInnerHtml text = decodeHtml textareaValue text).
Proof using Type.
  intros Hdecoded Hfirst Hlines.
  assert (Hjoin : amendInnerHtml text = plainText first lines).
  { unfold Composer.amendInnerHtml. rewrite Hdecoded.
    unfold editorHtml, plainText. apply tagFree_contains in Hfirst.
    change "<div><br></div>" with (String lt "div><br></div>").
    rewrite replace_all_copies by exact Hfirst.
    change (String lt "div><br></div>") with "<div><br></div>".
    rewrite breaks_become_line_feeds by exact Hlines.
    change "<div>" with (String lt "div>").
    rewrite replace_all_copies by exact Hfirst.
    change (String lt "div>") with "<div>".
    rewrite openings_become_line_feeds by exact Hlines.
    change "</div>" with (String lt "/div>").
    rewrite replace_all_copies by exact Hfirst.
    change (String lt "/div>") with "</div>".
    now rewrite closings_removed. }
  split; [exact Hjoin|].
  intros ->. rewrite Hjoin, Hdecoded. reflexivity.
Qed.

(** X19. [amendInnerHtml] never lengthens the decoded text: each of its
    three replacements puts at most one character in the place of a tag. *)
Theorem amendInnerHtml_not_longer (text : string) :
  String.length (amendInnerHtml text)
  <= String.length (decodeHtml textareaValue text).
Proof using Type.
  unfold Composer.amendInnerHtml.
  etransitivity; [apply replace_all_length; [discriminate|cbn; lia]|].
  etransitivity; [apply replace_all_length; [discriminate|cbn; lia]|].
  apply replace_all_length; [discriminate|cbn; lia].
Qed.

(** X15. A key-down that the autocomplete does not handle and whose key is
    not Enter changes nothing in the hook and makes no call, whatever
    modifiers are held: of the keys left to the listener, only Enter can
    send. *)
Theorem onKeyDown_ignores_other_keys (event : KeyboardEvent) (h : Hook) :
  handleEventWithAutocomplete event = false ->
  key event <> Key_ENTER ->
  onKeyDown event h = (tt, h, []).
Proof using Type.
  intros Hunhandled Hkey. rewrite ComposerSpec.onKeyDown_eq, Hunhandled.
  apply String.eqb_neq in Hkey. now rewrite Hkey.
Qed.

(** X16. [setText] and [onInput] never touch the editor node and call
    neither [onSend] nor a method of the event.  They keep [content] and
    [onChange] in step: when they commit a text, [onChange] (if given) is
    called once, with the text now in [content]; when they commit nothing
    ([setText] without argument and without editor, [onInput] on a target
    that is not a [div]) nothing changes and nothing is called. *)
Theorem committing_keeps_editor_and_notifies
    (text : option string) (target : EventTarget) (h : Hook) :
  let commits (m : Handler unit) :=
    ref_current (stateAfter m h) = ref_current h
    /\ ((exists t,
           content (stateAfter m h) = Some t
           /\ callsOf m h = if onChange_given then [OnChange t] else [])
        \/ (stateAfter m h = h /\ callsOf m h = [])) in
  commits (setText text)
  /\ commits (onInput target)
  /\ (text = None -> ref_current h = None ->
        stateAfter (setText text) h = h /\ callsOf (setText text) h = [])
  /\ (forall currentRefContent,
        text = None -> ref_current h = Some currentRefContent ->
        content (stateAfter (setText text) h) = Some currentRefContent)
  /\ (forall t,
        text = Some t ->
        stateAfter (setText text) h
        = {| ref_current := ref_current h; content := Some t |}
        /\ callsOf (setText text) h
           = if onChange_given then [OnChange t] else [])
  /\ (forall currentRefContent,
        text = None -> ref_current h = Some currentRefContent ->
        stateAfter (setText text) h
        = {| ref_current := ref_current h; content := Some currentRefContent |}
        /\ callsOf (setText text) h
           = if onChange_given then [OnChange currentRefContent] else [])
  /\ (target = OtherTarget ->
        stateAfter (onInput target) h = h /\ callsOf (onInput target) h = [])
  /\ (forall innerHTML,
        target = HTMLDivElement innerHTML ->
        stateAfter (onInput target) h
        = {| ref_current := ref_current h;
             content := Some (if Composer.enterShouldSend ctrlEnterToSend
                              then innerHTML else amendInnerHtml innerHTML) |}
        /\ callsOf (onInput target) h
           = if onChange_given
             then [OnChange (if Composer.enterShouldSend ctrlEnterToSend
                             then innerHTML else amendInnerHtml innerHTML)]
             else [])
  /\ (forall c, In c (callsOf (setText text) h) \/ In c (callsOf (onInput target) h) ->
        exists t, c = OnChange t).
Proof using Type.
  intros commits.
  assert (Hsome : forall t,
            stateAfter (setText (Some t)) h
            = {| ref_current := ref_current h; content := Some t |}
            /\ callsOf (setText (Some t)) h
               = if onChange_given then [OnChange t] else []).
  { intros t. unfold stateAfter, callsOf, Composer.setText, bind, setContent,
      when, call, ret.
    destruct onChange_given; split; reflexivity. }
  assert (Hattached : forall html,
            ref_current h = Some html ->
            stateAfter (setText None) h
            = {| ref_current := ref_current h; content := Some html |}
            /\ callsOf (setText None) h
               = if onChange_given then [OnChange html] else []).
  { intros html Href. unfold stateAfter, callsOf, Composer.setText, bind,
      readRef, setContent, when, call, ret.
    destruct h as [r c]. cbn in Href. subst r.
    destruct onChange_given; split; reflexivity. }
  assert (Hdetached : ref_current h = None ->
            stateAfter (setText None) h = h /\ callsOf (setText None) h = []).
  { intros Href. unfold stateAfter, callsOf, Composer.setText, bind, readRef, ret.
    destruct h as [r c]. cbn in Href. subst r. split; reflexivity. }
  assert (Hcase : (exists html, ref_current h = Some html) \/ ref_current h = None)
    by (destruct (ref_current h); eauto).
  assert (Hset : forall t, commits (setText t)).
  { intros [t|]; unfold commits.
    - destruct (Hsome t) as [-> ->]. split; [reflexivity|]. left. eauto.
    - destruct Hcase as [[html Href]|Href].
      + destruct (Hattached html Href) as [-> ->].
        split; [reflexivity|]. left. eauto.
      + destruct (Hdetached Href) as [-> ->].
        split; [reflexivity|]. right. split; reflexivity. }
  assert (Hcalls : forall t c, In c (callsOf (setText t) h) -> exists t', c = OnChange t').
  { intros [t|] c.
    - destruct (Hsome t) as [_ ->].
      destruct onChange_given; [intros [<-|[]]; eauto|intros []].
    - destruct Hcase as [[html Href]|Href].
      + destruct (Hattached html Href) as [_ ->].
        destruct onChange_given; [intros [<-|[]]; eauto|intros []].
      + destruct (Hdetached Href) as [_ ->]. intros []. }
  split; [apply Hset|].
  split; [destruct target as [innerHTML|];
          [apply (Hset (Some _))
          |unfold commits; split; [reflexivity|]; right; split; reflexivity]|].
  split; [intros ->; exact Hdetached|].
  split; [intros html -> Href; destruct (Hattached html Href) as [-> _]; reflexivity|].
  split; [intros t ->; apply Hsome|].
  split; [intros html ->; apply Hattached|].
  split; [intros ->; split; reflexivity|].
  split; [intros innerHTML ->; apply (Hsome _)|].
  intros c [Hin|Hin]; [exact (Hcalls _ _ Hin)|].
  destruct target as [innerHTML|]; [exact (Hcalls (Some _) _ Hin)|destruct Hin].
Qed.

(** X17. Sending and then calling [setText] without argument brings
    [content] back in step with the editor: with an editor attached,
    [content] becomes the empty string and [onChange] (if given) is told so,
    after [onSend]; without an editor, [content] keeps its text and
    [onChange] is not called. *)
Theorem send_then_setText (h : Hook) :
  let after := bind send (fun _ => setText None) in
  ref_current (stateAfter after h) = ref_current (cleared h)
  /\ content (stateAfter after h)
     = match ref_current h with
       | Some _ => Some EmptyString
       | None => content h
       end
  /\ callsOf after h
     = (if onSend_given then [OnSend] else [])
       ++ match ref_current h with
          | Some _ => if onChange_given then [OnChange EmptyString] else []
          | None => []
          end.
Proof using Type.
  intros after. unfold after, stateAfter, callsOf, bind.
  rewrite ComposerSpec.send_eq.
  unfold Composer.setText, bind, readRef, setContent, when, call, ret, cleared.
  destruct h as [[html|] c]; cbn; destruct onSend_given, onChange_given;
    repeat split.
Qed.

End Listeners.

(** *** The statements on sample data *)

Lemma amendInnerHtml_joins_lines_witness :
  Composer.amendInnerHtml (fun html => html) MoreSamples.typedHtml
  = plainText "foo" [EmptyString; "bar"].
Proof.
  apply (amendInnerHtml_joins_lines (fun html => html) MoreSamples.typedHtml
           "foo" [EmptyString; "bar"]); reflexivity.
Defined.

Lemma onKeyDown_ignores_other_keys_witness :
  Composer.onKeyDown "Enter" false true Samples.handlesTab true
    MoreSamples.escape Samples.typed
  = (tt, Samples.typed, []).
Proof.
  apply (onKeyDown_ignores_other_keys "Enter" false true Samples.handlesTab true
           MoreSamples.escape Samples.typed).
  - reflexivity.
  - discriminate.
Defined.

Lemma committing_keeps_editor_and_notifies_witness :
  (stateAfter (Composer.setText true None) (usePlainTextListeners_init (Some "draft") None)
   = usePlainTextListeners_init (Some "draft") None
   /\ callsOf (Composer.setText true None)
        (usePlainTextListeners_init (Some "draft") None) = [])
  /\ content (stateAfter (Composer.setText true None)
                (usePlainTextListeners_init (Some "draft") (Some "typed")))
     = Some "typed"
  /\ (stateAfter (Composer.onInput (fun html => html) false true OtherTarget)
        Samples.typed = Samples.typed
      /\ callsOf (Composer.onInput (fun html => html) false true OtherTarget)
           Samples.typed = [])
  /\ callsOf (Composer.onInput (fun html => html) false true
                (HTMLDivElement "hello!")) Samples.typed
     = [OnChange "hello!"].
Proof.
  destruct (committing_keeps_editor_and_notifies (fun html => html) false true
              None OtherTarget (usePlainTextListeners_init (Some "draft") None))
    as (_ & _ & Hdetached & _).
  destruct (committing_keeps_editor_and_notifies (fun html => html) false true
              None OtherTarget
              (usePlainTextListeners_init (Some "draft") (Some "typed")))
    as (_ & _ & _ & Hattached & _).
  destruct (committing_keeps_editor_and_notifies (fun html => html) false true
              None OtherTarget Samples.typed)
    as (_ & _ & _ & _ & _ & _ & Hother & _).
  destruct (committing_keeps_editor_and_notifies (fun html => html) false true
              None (HTMLDivElement "hello!") Samples.typed)
    as (_ & _ & _ & _ & _ & _ & _ & Hdiv & _).
  split; [apply Hdetached; reflexivity|].
  split; [apply (Hattached "typed"); reflexivity|].
  split; [apply Hother; reflexivity|].
  destruct (Hdiv "hello!" eq_refl) as [_ Hcalls]. exact Hcalls.
Defined.

End ComposerMoreSpec.
